(** * slf4ts-api: the logger facade (LoggerFactory.ts)

    A shallow embedding of [DefaultLoggerInstance] and [LoggerFactory].
    The current revision of the file (three-argument log methods,
    [reset(resetLoggerImplementation)]) is embedded at top level. Of the
    older revision kept under lib/slf4ts/LoggerFactory.ts, whose [getLogger]
    and [initialize] are the same, [Module Legacy] embeds the constructor and
    the level guards of the log methods.

    Objects live in a store ([heap]) and are named by their index, so that
    reference equality of logger instances is equality of indices. *)

From Stdlib Require Import ZArith Lia.
From stdpp Require Import base option list gmap strings.

Local Open Scope string_scope.
Local Open Scope list_scope.
Local Open Scope nat_scope.

(** ** JavaScript values reaching the facade *)

(** Property values of a metadata object; the facade copies them, it never
    inspects them. *)
Inductive JsScalar :=
| JsNum (z : Z)
| JsStr (s : string)
| JsBool (b : bool).

(** An [Error] object: its message and its own enumerable properties. *)
Record JsError := {
  errMessage : string;
  errOwn : gmap string JsScalar
}.

(** [metadata?: any | Error]: "Either an Error instance or a metadata
    object - can be undefined or null". *)
Inductive Any :=
| Undefined
| Null
| AnError (e : JsError)
| AnObject (o : gmap string JsScalar).

(** [metadata instanceof Error] *)
Definition instanceofError (v : Any) : option JsError :=
  match v with
  | AnError e => Some e
  | _ => None
  end.

(** The own enumerable properties that an object spread [{ ...v }] copies:
    none for [undefined] and [null]. *)
Definition spread (v : Any) : gmap string JsScalar :=
  match v with
  | Undefined | Null => ∅
  | AnError e => errOwn e
  | AnObject o => o
  end.

(** [{ ...a, ...b }]: the properties of [b] are written after those of [a]
    and win on a common key. *)
Definition spread2 (a b : Any) : gmap string JsScalar := spread b ∪ spread a.

(** ** Log levels *)

Inductive LogLevel := TRACE | DEBUG | INFO | WARN | ERROR.

#[global] Instance LogLevel_eq_dec : EqDecision LogLevel.
Proof. solve_decision. Defined.

(** Severity as the specification orders it: TRACE is the least severe. *)
Definition severity (l : LogLevel) : nat :=
  match l with
  | TRACE => 0 | DEBUG => 1 | INFO => 2 | WARN => 3 | ERROR => 4
  end.

(** Modelled from the spec: the declaration of the [LogLevel] enum
    (LoggerConfiguration.ts) is missing. The specification allows "TRACE <
    DEBUG < INFO < WARN < ERROR, or reverse numeric ordering"; the numeric
    value of a level is therefore a parameter of the development, and the
    two orderings are the two predicates below. *)
Definition descending (levelValue : LogLevel → Z) : Prop :=
  ∀ a b, (levelValue a ≤ levelValue b)%Z ↔ (severity b ≤ severity a)%nat.

Definition ascending (levelValue : LogLevel → Z) : Prop :=
  ∀ a b, (levelValue a ≤ levelValue b)%Z ↔ (severity a ≤ severity b)%nat.

(** ERROR = 0, WARN = 1, INFO = 2, DEBUG = 3, TRACE = 4 *)
Definition errorFirst (l : LogLevel) : Z :=
  match l with
  | ERROR => 0 | WARN => 1 | INFO => 2 | DEBUG => 3 | TRACE => 4
  end.

(** TRACE = 0, DEBUG = 1, INFO = 2, WARN = 3, ERROR = 4 *)
Definition traceFirst (l : LogLevel) : Z :=
  match l with
  | TRACE => 0 | DEBUG => 1 | INFO => 2 | WARN => 3 | ERROR => 4
  end.

(** ** Bindings and implementations *)

(** A [LoggerImplementation] is an external object with one method, [log];
    the facade only holds a reference to it. *)
Definition LoggerImplementation := nat.

(** The arguments of one [impl.log(level, group, name, message, error,
    metadata)] call. *)
Record LogRecord := {
  recLevel : LogLevel;
  recGroup : string;
  recName : string;
  recMessage : string;
  recError : option JsError;
  recMetadata : gmap string JsScalar
}.

Record LoggerBinding := {
  getVendor : string;
  getVersion : string;
  getLoggerImplementation : LoggerImplementation
}.

(** ** Logger instances *)

Definition ref := nat.

Record DefaultLoggerInstance := {
  impl : option LoggerImplementation;   (* [undefined] when nothing is bound *)
  name : string;
  group : string;
  commonMetadata : Any;
  logLevel : LogLevel
}.

(** What the promise returned by a log method settles to. *)
Inductive Completion :=
| NoOp                                                (* resolved, [undefined] *)
| Delegated (i : LoggerImplementation) (r : LogRecord) (* what [impl.log] returned *)
| RejectedTypeError.                                  (* [this.impl] is [undefined] *)

Section Levels.

Variable levelValue : LogLevel → Z.

(** [DefaultLoggerInstance.log], lines 161-169. *)
Definition log (this : DefaultLoggerInstance) (lvl : LogLevel) (message : string)
    (metadata : Any) (error : option JsError) : Completion :=
  if (levelValue lvl <=? levelValue (logLevel this))%Z then
    match instanceofError metadata with
    | Some e =>
        match impl this with
        | Some i =>
            Delegated i {| recLevel := lvl; recGroup := group this; recName := name this;
                           recMessage := message; recError := Some e;
                           recMetadata := spread (commonMetadata this) |}
        | None => RejectedTypeError
        end
    | None =>
        match impl this with
        | Some i =>
            Delegated i {| recLevel := lvl; recGroup := group this; recName := name this;
                           recMessage := message; recError := error;
                           recMetadata := spread2 (commonMetadata this) metadata |}
        | None => RejectedTypeError
        end
    end
  else NoOp.

Definition trace this message metadata error := log this TRACE message metadata error.
Definition debug this message metadata error := log this DEBUG message metadata error.
Definition info this message metadata error := log this INFO message metadata error.
Definition warn this message metadata error := log this WARN message metadata error.
Definition error this message metadata err := log this ERROR message metadata err.

End Levels.

(** [DefaultLoggerInstance.setMetadata], lines 137-139: a full replacement. *)
Definition setMetadata (this : DefaultLoggerInstance) (metadata : Any) : DefaultLoggerInstance :=
  {| impl := impl this; name := name this; group := group this;
     commonMetadata := metadata; logLevel := logLevel this |}.

(** The body of the closures registered by the constructor,
    [(event) => this.logLevel = event.logLevel]. *)
Definition assignLogLevel (this : DefaultLoggerInstance) (lvl : LogLevel) : DefaultLoggerInstance :=
  {| impl := impl this; name := name this; group := group this;
     commonMetadata := commonMetadata this; logLevel := lvl |}.

(** ** The level configuration registry *)

(** The scope of an override or of a subscription: the optional [group] and
    [name] arguments of the configuration API. *)
Inductive Selector :=
| Global
| Group (g : string)
| Exact (g n : string).

#[global] Instance Selector_eq_dec : EqDecision Selector.
Proof. solve_decision. Defined.

(** A registered callback. The facade registers closures of one shape only,
    [(event) => this.logLevel = event.logLevel], which differ in the
    instance [this] they captured. *)
Inductive Callback := AssignLogLevel (this : ref).

#[global] Instance Callback_eq_dec : EqDecision Callback.
Proof. solve_decision. Defined.

Record ConfigurationState := {
  exactLevels : gmap (string * string) LogLevel;
  groupLevels : gmap string LogLevel;
  globalLevel : option LogLevel;
  listeners : list (Selector * Callback)        (* in registration order *)
}.

Definition initialConfiguration : ConfigurationState :=
  {| exactLevels := ∅; groupLevels := ∅; globalLevel := None; listeners := [] |}.

(** Modelled from the spec: LoggerConfiguration.ts is missing.
    "getLogLevel(group, name): resolves in precedence order: exact
    (group,name) override, then group-only override, then global default;
    fails over to a built-in default (e.g., INFO) if nothing configured." *)
Definition getLogLevel (cfg : ConfigurationState) (g n : string) : LogLevel :=
  match exactLevels cfg !! (g, n) with
  | Some l => l
  | None =>
      match groupLevels cfg !! g with
      | Some l => l
      | None => default INFO (globalLevel cfg)
      end
  end.

(** Modelled from the spec: LoggerConfiguration.ts is missing.
    "onLevelChanged(callback, group?, name?): registers a callback invoked
    whenever a configuration change affects the given selector scope";
    callbacks are kept "in registration order". *)
Definition onLogLevelChanged (callback : Callback) (sel : Selector)
    (cfg : ConfigurationState) : ConfigurationState :=
  {| exactLevels := exactLevels cfg; groupLevels := groupLevels cfg;
     globalLevel := globalLevel cfg;
     listeners := listeners cfg ++ [(sel, callback)] |}.

(** Modelled from the spec: LoggerConfiguration.ts is missing.
    "setLogLevel(level, group?, name?): applies an override": the first half
    of the operation, recording the override. *)
Definition applyOverride (lvl : LogLevel) (sel : Selector)
    (cfg : ConfigurationState) : ConfigurationState :=
  match sel with
  | Global =>
      {| exactLevels := exactLevels cfg; groupLevels := groupLevels cfg;
         globalLevel := Some lvl; listeners := listeners cfg |}
  | Group g =>
      {| exactLevels := exactLevels cfg; groupLevels := <[g := lvl]> (groupLevels cfg);
         globalLevel := globalLevel cfg; listeners := listeners cfg |}
  | Exact g n =>
      {| exactLevels := <[(g, n) := lvl]> (exactLevels cfg); groupLevels := groupLevels cfg;
         globalLevel := globalLevel cfg; listeners := listeners cfg |}
  end.

(** Modelled from the spec: LoggerConfiguration.ts is missing.
    "setLogLevel ... triggers matching subscriptions": the callbacks
    registered for the selector of the change, in registration order. *)
Definition subscribers (sel : Selector) (cfg : ConfigurationState) : list Callback :=
  (filter (λ entry, entry.1 = sel) (listeners cfg)).*2.

(** ** The process: module constants, factory statics, object store *)

Record State := {
  BINDINGS : list LoggerBinding;                   (* line 4 *)
  LOGGER : option LoggerImplementation;            (* line 220 *)
  ROOT_LOGGER : option ref;                        (* line 221 *)
  INITIALIZED : bool;                              (* line 222 *)
  LOGGER_INSTANCE_CACHE : gmap string ref;         (* line 223 *)
  heap : list DefaultLoggerInstance;               (* the instances constructed so far *)
  configuration : ConfigurationState;              (* LoggerConfiguration *)
  emitted : list (LoggerImplementation * LogRecord); (* the [impl.log] calls made so far *)
  visible : list LoggerBinding    (* the environment: the bindings a discovery would find now *)
}.

(** [const BINDING = BINDINGS[0]], line 5. *)
Definition BINDING (st : State) : option LoggerBinding := head (BINDINGS st).

Definition withLOGGER (v : option LoggerImplementation) (st : State) : State :=
  {| BINDINGS := BINDINGS st; LOGGER := v; ROOT_LOGGER := ROOT_LOGGER st;
     INITIALIZED := INITIALIZED st; LOGGER_INSTANCE_CACHE := LOGGER_INSTANCE_CACHE st;
     heap := heap st; configuration := configuration st; emitted := emitted st;
     visible := visible st |}.

Definition withROOT_LOGGER (v : option ref) (st : State) : State :=
  {| BINDINGS := BINDINGS st; LOGGER := LOGGER st; ROOT_LOGGER := v;
     INITIALIZED := INITIALIZED st; LOGGER_INSTANCE_CACHE := LOGGER_INSTANCE_CACHE st;
     heap := heap st; configuration := configuration st; emitted := emitted st;
     visible := visible st |}.

Definition withINITIALIZED (v : bool) (st : State) : State :=
  {| BINDINGS := BINDINGS st; LOGGER := LOGGER st; ROOT_LOGGER := ROOT_LOGGER st;
     INITIALIZED := v; LOGGER_INSTANCE_CACHE := LOGGER_INSTANCE_CACHE st;
     heap := heap st; configuration := configuration st; emitted := emitted st;
     visible := visible st |}.

Definition withCACHE (v : gmap string ref) (st : State) : State :=
  {| BINDINGS := BINDINGS st; LOGGER := LOGGER st; ROOT_LOGGER := ROOT_LOGGER st;
     INITIALIZED := INITIALIZED st; LOGGER_INSTANCE_CACHE := v;
     heap := heap st; configuration := configuration st; emitted := emitted st;
     visible := visible st |}.

Definition withHeap (v : list DefaultLoggerInstance) (st : State) : State :=
  {| BINDINGS := BINDINGS st; LOGGER := LOGGER st; ROOT_LOGGER := ROOT_LOGGER st;
     INITIALIZED := INITIALIZED st; LOGGER_INSTANCE_CACHE := LOGGER_INSTANCE_CACHE st;
     heap := v; configuration := configuration st; emitted := emitted st;
     visible := visible st |}.

Definition withConfiguration (v : ConfigurationState) (st : State) : State :=
  {| BINDINGS := BINDINGS st; LOGGER := LOGGER st; ROOT_LOGGER := ROOT_LOGGER st;
     INITIALIZED := INITIALIZED st; LOGGER_INSTANCE_CACHE := LOGGER_INSTANCE_CACHE st;
     heap := heap st; configuration := v; emitted := emitted st;
     visible := visible st |}.

Definition withEmitted (v : list (LoggerImplementation * LogRecord)) (st : State) : State :=
  {| BINDINGS := BINDINGS st; LOGGER := LOGGER st; ROOT_LOGGER := ROOT_LOGGER st;
     INITIALIZED := INITIALIZED st; LOGGER_INSTANCE_CACHE := LOGGER_INSTANCE_CACHE st;
     heap := heap st; configuration := configuration st; emitted := v;
     visible := visible st |}.

(** An event of the environment, not a call of the facade: the set of
    bindings visible to the process changes. *)
Definition bindingsChange (v : list LoggerBinding) (st : State) : State :=
  {| BINDINGS := BINDINGS st; LOGGER := LOGGER st; ROOT_LOGGER := ROOT_LOGGER st;
     INITIALIZED := INITIALIZED st; LOGGER_INSTANCE_CACHE := LOGGER_INSTANCE_CACHE st;
     heap := heap st; configuration := configuration st; emitted := emitted st;
     visible := v |}.

(** Modelled from the spec: LoggerBindings.ts is missing. "discover():
    enumerates all bindings visible to the process; order is discovery
    order". The argument is what is visible when the call is made. *)
Definition getBindings (environment : list LoggerBinding) : list LoggerBinding := environment.

(** Loading the module evaluates line 4, the one place where discovery is
    called, and the static initialisers of lines 220-223. *)
Definition loadModule (environment : list LoggerBinding) : State :=
  {| BINDINGS := getBindings environment; LOGGER := None; ROOT_LOGGER := None;
     INITIALIZED := false; LOGGER_INSTANCE_CACHE := ∅;
     heap := []; configuration := initialConfiguration; emitted := [];
     visible := environment |}.

(** Running one callback with the event of a level change. *)
Definition invoke (lvl : LogLevel) (st : State) (cb : Callback) : State :=
  match cb with
  | AssignLogLevel this =>
      match heap st !! this with
      | Some obj => withHeap (<[this := assignLogLevel obj lvl]> (heap st)) st
      | None => st
      end
  end.

(** Modelled from the spec: LoggerConfiguration.ts is missing.
    "setLogLevel(level, group?, name?): applies an override, triggers
    matching subscriptions", each "invoked synchronously in registration
    order". *)
Definition setLogLevel (lvl : LogLevel) (sel : Selector) (st : State) : State :=
  let cfg := applyOverride lvl sel (configuration st) in
  foldl (invoke lvl) (withConfiguration cfg st) (subscribers sel cfg).

(** [new DefaultLoggerInstance(name, group, logLevel, impl)], lines 104-113:
    the object is allocated, then subscribed three times. *)
Definition newDefaultLoggerInstance (n g : string) (lvl : LogLevel)
    (i : option LoggerImplementation) (st : State) : ref * State :=
  let this := length (heap st) in
  let obj := {| impl := i; name := n; group := g;
                commonMetadata := Undefined; logLevel := lvl |} in
  let cfg1 := onLogLevelChanged (AssignLogLevel this) (Exact g n) (configuration st) in
  let cfg2 := onLogLevelChanged (AssignLogLevel this) (Group g) cfg1 in
  let cfg3 := onLogLevelChanged (AssignLogLevel this) Global cfg2 in
  (this, withConfiguration cfg3 (withHeap (heap st ++ [obj]) st)).

(** The effect of the promise's producer on the outside world: a delegated
    call reaches its implementation. *)
Definition deliver (c : Completion) (st : State) : State :=
  match c with
  | Delegated i r => withEmitted (emitted st ++ [(i, r)]) st
  | NoOp | RejectedTypeError => st
  end.

(** [setMetadata] called on the instance behind a reference. *)
Definition callSetMetadata (this : ref) (metadata : Any) (st : State) : State :=
  match heap st !! this with
  | Some obj => withHeap (<[this := setMetadata obj metadata]> (heap st)) st
  | None => st
  end.

(** ** LoggerFactory *)

Inductive Outcome (A : Type) :=
| Returned (a : A) (st : State)
| Thrown (message : string) (st : State).
Arguments Returned {A} a st.
Arguments Thrown {A} message st.

Definition newline : string := String (Ascii.ascii_of_nat 10) "".

(** One line of the diagnostic, [`\n  ${vendor} - ${version}`]. *)
Definition bindingLine (binding : LoggerBinding) : string :=
  newline +:+ "  " +:+ getVendor binding +:+ " - " +:+ getVersion binding.

(** The message built on lines 233-235. *)
Definition multipleBindingsMessage (bindings : list LoggerBinding)
    (binding : LoggerBinding) : string :=
  foldl (λ message b, message +:+ bindingLine b) "multiple bindings found:" bindings
  +:+ newline +:+ "  using " +:+ getVendor binding +:+ " - " +:+ getVersion binding.

(** [LoggerFactory.reset], lines 213-218. *)
Definition reset (resetLoggerImplementation : bool) (st : State) : State :=
  let st1 := withCACHE ∅ st in
  if resetLoggerImplementation then withINITIALIZED false st1 else st1.

(** Lines 196-203 of [getLogger]: the cache lookup and, on a miss, the
    construction. *)
Definition lookupOrCreate (g n : string) (st : State) : Outcome ref :=
  let compoundKey := g +:+ ":" +:+ n in
  match LOGGER_INSTANCE_CACHE st !! compoundKey with
  | Some instance => Returned instance st
  | None =>
      let '(instance, st1) :=
        newDefaultLoggerInstance n g (getLogLevel (configuration st) g n) (LOGGER st) st in
      Returned instance (withCACHE (<[compoundKey := instance]> (LOGGER_INSTANCE_CACHE st1)) st1)
  end.

Section Factory.

Variable levelValue : LogLevel → Z.

(** A log method called on the instance behind a reference. *)
Definition callLog (this : ref) (lvl : LogLevel) (message : string)
    (metadata : Any) (err : option JsError) (st : State) : option (Completion * State) :=
  obj ← heap st !! this;
  let c := log levelValue obj lvl message metadata err in
  Some (c, deliver c st).

(** [LoggerFactory.initialize], lines 225-238; [getLogger] is the factory's
    own [getLogger], which [initialize] calls back for the root logger.
    [ROOT_LOGGER.info(message)] is [log(LogLevel.INFO, message, undefined,
    undefined)] on the root logger (line 150); its promise is dropped.
    [None] stands for a computation cut off by lack of fuel. *)
Definition initialize (getLogger : string → string → State → option (Outcome ref))
    (st : State) : option (Outcome unit) :=
  match BINDING st with
  | None => Some (Thrown "No Logger Binding found" st)
  | Some binding =>
      let st1 := withLOGGER (Some (getLoggerImplementation binding)) st in
      match getLogger "" "" st1 with
      | None => None
      | Some (Thrown e st2) => Some (Thrown e st2)
      | Some (Returned root st2) =>
          let st3 := withROOT_LOGGER (Some root) st2 in
          if (1 <? length (BINDINGS st3))%nat then
            let message := multipleBindingsMessage (BINDINGS st3) binding in
            match callLog root INFO message Undefined None st3 with
            | Some (_, st4) => Some (Returned () st4)
            | None => Some (Returned () st3)
            end
          else Some (Returned () st3)
      end
  end.

(** [LoggerFactory.getLogger], lines 190-204. The recursion through
    [initialize] is bounded by [fuel]. *)
Fixpoint getLoggerFuel (fuel : nat) (g n : string) (st : State) : option (Outcome ref) :=
  match fuel with
  | O => None
  | S fuel' =>
      if negb (INITIALIZED st) then
        match initialize (getLoggerFuel fuel') (withINITIALIZED true st) with
        | None => None
        | Some (Thrown e st1) => Some (Thrown e st1)
        | Some (Returned _ st1) => Some (lookupOrCreate g n st1)
        end
      else Some (lookupOrCreate g n st)
  end.

(** Two levels of recursion are all [getLogger] ever uses (lemma
    [getLoggerFuel_enough]). *)
Definition getLogger (g n : string) (st : State) : Outcome ref :=
  default (Thrown "out of fuel" st) (getLoggerFuel 2 g n st).

End Factory.

(** ** Calls through references *)

(** The leveled method for each level (lines 141-159). *)
Definition leveled (levelValue : LogLevel → Z) (lvl : LogLevel) :
    DefaultLoggerInstance → string → Any → option JsError → Completion :=
  match lvl with
  | TRACE => trace levelValue
  | DEBUG => debug levelValue
  | INFO => info levelValue
  | WARN => warn levelValue
  | ERROR => error levelValue
  end.

(** A leveled method called on the instance behind a reference. *)
Definition callLeveled (levelValue : LogLevel → Z) (lvl : LogLevel) (this : ref)
    (message : string) (metadata : Any) (err : option JsError) (st : State) :
    option (Completion * State) :=
  obj ← heap st !! this;
  let c := leveled levelValue lvl obj message metadata err in
  Some (c, deliver c st).

(** ** The older revision, lib/slf4ts/LoggerFactory.ts *)

Module Legacy.

Record DefaultLoggerInstance := {
  impl : option LoggerImplementation;
  name : string;
  group : string;
  commonMetadata : option (list Any);     (* [any[]], unset until [setMetadata] *)
  logLevel : LogLevel
}.

Record State := {
  heap : list DefaultLoggerInstance;
  configuration : ConfigurationState
}.

(** The constructor of lines 27-35: two subscriptions. *)
Definition newDefaultLoggerInstance (n g : string) (lvl : LogLevel)
    (i : option LoggerImplementation) (st : State) : ref * State :=
  let this := length (heap st) in
  let obj := {| impl := i; name := n; group := g;
                commonMetadata := None; logLevel := lvl |} in
  let cfg1 := onLogLevelChanged (AssignLogLevel this) (Exact g n) (configuration st) in
  let cfg2 := onLogLevelChanged (AssignLogLevel this) (Group g) cfg1 in
  (this, {| heap := heap st ++ [obj]; configuration := cfg2 |}).

(** The condition [this.logLevel <= LogLevel.X] that guards the body of the
    method for level X (lines 58, 64, 70, 76 and 82). *)
Definition guard (levelValue : LogLevel → Z) (this : DefaultLoggerInstance)
    (lvl : LogLevel) : bool :=
  (levelValue (logLevel this) <=? levelValue lvl)%Z.

End Legacy.

(** ** Programs over the facade *)

(** The calls a client can make, and the one event of the environment. *)
Inductive Operation :=
| BindingsChange (environment : list LoggerBinding)
| GetLogger (g n : string)
| Reset (resetLoggerImplementation : bool)
| SetLogLevel (lvl : LogLevel) (sel : Selector)
| SetMetadata (this : ref) (metadata : Any)
| Log (lvl : LogLevel) (this : ref) (message : string) (metadata : Any)
      (err : option JsError).

Definition stateOf {A : Type} (o : Outcome A) : State :=
  match o with
  | Returned _ st | Thrown _ st => st
  end.

Definition perform (levelValue : LogLevel → Z) (st : State) (op : Operation) : State :=
  match op with
  | BindingsChange environment => bindingsChange environment st
  | GetLogger g n => stateOf (getLogger levelValue g n st)
  | Reset b => reset b st
  | SetLogLevel lvl sel => setLogLevel lvl sel st
  | SetMetadata this metadata => callSetMetadata this metadata st
  | Log lvl this message metadata err =>
      match callLeveled levelValue lvl this message metadata err st with
      | Some (_, st') => st'
      | None => st
      end
  end.

Definition performAll (levelValue : LogLevel → Z) (ops : list Operation) (st : State) : State :=
  foldl (perform levelValue) st ops.

Definition isReset (op : Operation) : bool :=
  match op with
  | Reset _ => true
  | _ => false
  end.

(** ** Initialisation unfolded, and the invariants of the process *)

(** The state [initialize] leaves behind when a binding exists: lines
    229-237 with the nested [getLogger()] resolved to the lookup it performs
    once [INITIALIZED] is set. *)
Definition afterInitialize (levelValue : LogLevel → Z) (binding : LoggerBinding)
    (st : State) : State :=
  let st1 := withLOGGER (Some (getLoggerImplementation binding)) (withINITIALIZED true st) in
  match lookupOrCreate "" "" st1 with
  | Returned root st2 =>
      let st3 := withROOT_LOGGER (Some root) st2 in
      if (1 <? length (BINDINGS st3))%nat then
        match callLog levelValue root INFO
                (multipleBindingsMessage (BINDINGS st3) binding) Undefined None st3 with
        | Some (_, st4) => st4
        | None => st3
        end
      else st3
  | Thrown _ st2 => st2
  end.

(** Until the factory is initialised its cache is empty. *)
Definition coldCacheEmpty (st : State) : Prop :=
  INITIALIZED st = false → LOGGER_INSTANCE_CACHE st = ∅.

(** The root logger that [initialize] constructs (lines 230 and 201). *)
Definition rootInstance (binding : LoggerBinding) (st : State) : DefaultLoggerInstance :=
  {| impl := Some (getLoggerImplementation binding); name := ""; group := "";
     commonMetadata := Undefined; logLevel := getLogLevel (configuration st) "" "" |}.

(** The call that [ROOT_LOGGER.info(message)] makes on the implementation
    when it is forwarded (lines 233-236 and 166). *)
Definition multipleBindingsRecord (bindings : list LoggerBinding)
    (binding : LoggerBinding) : LogRecord :=
  {| recLevel := INFO; recGroup := ""; recName := "";
     recMessage := multipleBindingsMessage bindings binding;
     recError := None; recMetadata := ∅ |}.

(** What every call other than [reset] keeps: the discovered bindings, the
    entries of the cache, the initialisation flag once set, the instances
    constructed so far. *)
Definition extends (st st' : State) : Prop :=
  BINDINGS st' = BINDINGS st
  ∧ (∀ key r, LOGGER_INSTANCE_CACHE st !! key = Some r →
              LOGGER_INSTANCE_CACHE st' !! key = Some r)
  ∧ (INITIALIZED st = true → INITIALIZED st' = true)
  ∧ length (heap st) ≤ length (heap st').

(** Every cached reference names a constructed instance. *)
Definition cacheValid (st : State) : Prop :=
  ∀ key r, LOGGER_INSTANCE_CACHE st !! key = Some r → r < length (heap st).

Definition wellFormed (st : State) : Prop := coldCacheEmpty st ∧ cacheValid st.

(** Every constructed instance holds its three subscriptions. *)
Definition subscribed (st : State) : Prop :=
  ∀ (this : ref) (obj : DefaultLoggerInstance),
    heap st !! this = Some obj →
    (Exact (group obj) (name obj), AssignLogLevel this) ∈ listeners (configuration st)
    ∧ (Group (group obj), AssignLogLevel this) ∈ listeners (configuration st)
    ∧ (Global, AssignLogLevel this) ∈ listeners (configuration st).

(** A process in which no binding was discovered and no implementation is
    held, neither by the factory nor by an instance. *)
Definition noBackend (st : State) : Prop :=
  BINDINGS st = []
  ∧ LOGGER st = None
  ∧ ∀ (this : ref) (obj : DefaultLoggerInstance), heap st !! this = Some obj → impl obj = None.

(** ** Example processes *)

Definition consoleBinding : LoggerBinding :=
  {| getVendor := "console"; getVersion := "1.0"; getLoggerImplementation := 7 |}.

Definition winstonBinding : LoggerBinding :=
  {| getVendor := "winston"; getVersion := "3.2"; getLoggerImplementation := 9 |}.

(** No binding installed; [getLogger("svc", "db")] was called twice. *)
Definition unboundProcess : State :=
  stateOf (getLogger errorFirst "svc" "db"
             (stateOf (getLogger errorFirst "svc" "db" (loadModule [])))).

(** Two bindings installed, and the global level set to WARN before the
    first [getLogger]. *)
Definition quietProcess : State :=
  setLogLevel WARN Global (loadModule [consoleBinding; winstonBinding]).

(** Loaded with the console binding alone and used once; then the winston
    binding becomes the only visible one. *)
Definition movedProcess : State :=
  bindingsChange [winstonBinding]
    (stateOf (getLogger errorFirst "" "" (loadModule [consoleBinding]))).

(** One binding installed; [getLogger("svc", "db")] was called once: the
    root logger is instance 0 and the requested logger instance 1. *)
Definition usedProcess : State :=
  stateOf (getLogger errorFirst "svc" "db" (loadModule [consoleBinding])).

Definition svcDbInstance : DefaultLoggerInstance :=
  {| impl := Some 7; name := "db"; group := "svc";
     commonMetadata := Undefined; logLevel := INFO |}.

(** The scenario of the specification: an instance at level DEBUG whose
    common metadata is [{b: 2}]. *)
Definition debugInstance : DefaultLoggerInstance :=
  {| impl := Some 7; name := "db"; group := "svc";
     commonMetadata := AnObject {[ "b" := JsNum 2 ]}; logLevel := DEBUG |}.

(** ** The getters of an instance, and further invariants *)

Module Instance.

(** [DefaultLoggerInstance.getLogLevel], lines 115-117. *)
Definition getLogLevel (this : DefaultLoggerInstance) : LogLevel := logLevel this.

(** [DefaultLoggerInstance.getName], lines 119-121. *)
Definition getName (this : DefaultLoggerInstance) : string := name this.

(** [DefaultLoggerInstance.getGroup], lines 123-125. *)
Definition getGroup (this : DefaultLoggerInstance) : string := group this.

(** [DefaultLoggerInstance.getImpl], lines 127-129. *)
Definition getImpl (this : DefaultLoggerInstance) : option LoggerImplementation := impl this.

End Instance.

(** No two keys of the cache share an instance. *)
Definition cacheInjective (st : State) : Prop :=
  ∀ key1 key2 r,
    LOGGER_INSTANCE_CACHE st !! key1 = Some r →
    LOGGER_INSTANCE_CACHE st !! key2 = Some r →
    key1 = key2.

(** The callbacks that the constructors of the instances [objs], stored from
    index [this] on, have registered, in registration order. *)
Fixpoint subscriptionsFrom (this : ref) (objs : list DefaultLoggerInstance) :
    list (Selector * Callback) :=
  match objs with
  | [] => []
  | obj :: objs =>
      (Exact (group obj) (name obj), AssignLogLevel this)
      :: (Group (group obj), AssignLogLevel this)
      :: (Global, AssignLogLevel this)
      :: subscriptionsFrom (S this) objs
  end.

(** The registry holds the callbacks of the constructed instances and no
    others. *)
Definition registryMatchesStore (st : State) : Prop :=
  listeners (configuration st) = subscriptionsFrom 0 (heap st).

(** The one implementation [i] is the factory's, once initialised, every
    instance's, and the receiver of every delivered call. *)
Definition boundTo (i : LoggerImplementation) (st : State) : Prop :=
  (INITIALIZED st = true → LOGGER st = Some i)
  ∧ (∀ (this : ref) (obj : DefaultLoggerInstance), heap st !! this = Some obj → impl obj = Some i)
  ∧ (∀ j r, (j, r) ∈ emitted st → j = i).

(** The instance cached under a key carries a group and a name that
    concatenate to that key. *)
Definition cacheKeysMatch (st : State) : Prop :=
  ∀ key r obj,
    LOGGER_INSTANCE_CACHE st !! key = Some r →
    heap st !! r = Some obj →
    group obj +:+ ":" +:+ name obj = key.

(** One binding installed and nothing called yet. *)
Definition freshProcess : State := loadModule [consoleBinding].

(** The process without bindings after its failed first [getLogger]. *)
Definition failedProcess : State := withINITIALIZED true (loadModule []).

(** * Properties *)

(** ** The level guard and the forwarded record *)

Lemma leveled_log levelValue lvl : leveled levelValue lvl = λ this, log levelValue this lvl.
Proof. by destruct lvl. Qed.

(** Calling the method for a level is calling [log] with that level. *)
Lemma callLeveled_callLog levelValue lvl this message metadata err st :
  callLeveled levelValue lvl this message metadata err st
  = callLog levelValue this lvl message metadata err st.
Proof. unfold callLeveled, callLog. by rewrite leveled_log. Qed.

Lemma errorFirst_descending : descending errorFirst.
Proof. intros [] []; cbn; lia. Qed.

Lemma traceFirst_ascending : ascending traceFirst.
Proof. intros [] []; cbn; lia. Qed.

Section Guard.

Variable levelValue : LogLevel → Z.
Hypothesis levels_descend : descending levelValue.

Lemma guard_true (lvl threshold : LogLevel) :
  (levelValue lvl <=? levelValue threshold)%Z = true ↔ (severity threshold ≤ severity lvl)%nat.
Proof. rewrite Z.leb_le. apply levels_descend. Qed.

Lemma guard_false (lvl threshold : LogLevel) :
  (levelValue lvl <=? levelValue threshold)%Z = false ↔ (severity lvl < severity threshold)%nat.
Proof.
  rewrite <- not_true_iff_false, guard_true. lia.
Qed.

Lemma log_below this lvl message metadata err :
  (severity lvl < severity (logLevel this))%nat →
  log levelValue this lvl message metadata err = NoOp.
Proof. intros H. unfold log. apply guard_false in H. by rewrite H. Qed.

Lemma log_error_metadata this i lvl message e err :
  impl this = Some i →
  (severity (logLevel this) ≤ severity lvl)%nat →
  log levelValue this lvl message (AnError e) err
  = Delegated i {| recLevel := lvl; recGroup := group this; recName := name this;
                   recMessage := message; recError := Some e;
                   recMetadata := spread (commonMetadata this) |}.
Proof.
  intros Hi H. unfold log. apply guard_true in H. rewrite H. cbn. by rewrite Hi.
Qed.

Lemma log_plain_metadata this i lvl message metadata err :
  impl this = Some i →
  (severity (logLevel this) ≤ severity lvl)%nat →
  instanceofError metadata = None →
  log levelValue this lvl message metadata err
  = Delegated i {| recLevel := lvl; recGroup := group this; recName := name this;
                   recMessage := message; recError := err;
                   recMetadata := spread2 (commonMetadata this) metadata |}.
Proof.
  intros Hi H Hm. unfold log. apply guard_true in H. rewrite H, Hm. by rewrite Hi.
Qed.

Lemma log_above this i lvl message metadata err :
  impl this = Some i →
  (severity (logLevel this) ≤ severity lvl)%nat →
  ∃ r, log levelValue this lvl message metadata err = Delegated i r.
Proof.
  intros Hi H. destruct (instanceofError metadata) as [e|] eqn:Hm.
  - destruct metadata; try discriminate. injection Hm as ->.
    eexists. by apply log_error_metadata.
  - eexists. by apply log_plain_metadata.
Qed.

(** C1. For a logger instance with a bound implementation and effective
    threshold T, a leveled call (trace, debug, info, warn, error) at level L
    is forwarded to the implementation's [log] exactly when L is at or above
    T in severity: then one call is delivered to the implementation; when L
    is below T the promise is already resolved to nothing and the process
    state, in particular the list of calls the implementation received, is
    unchanged. *)
Theorem C1_forwarded_iff_at_or_above_threshold
    (lvl : LogLevel) (this : ref) (obj : DefaultLoggerInstance) (i : LoggerImplementation)
    (message : string) (metadata : Any) (err : option JsError) (st : State) :
  heap st !! this = Some obj →
  impl obj = Some i →
  ∃ c st', callLeveled levelValue lvl this message metadata err st = Some (c, st')
    ∧ ((∃ r, c = Delegated i r ∧ st' = withEmitted (emitted st ++ [(i, r)]) st)
         ↔ (severity (logLevel obj) ≤ severity lvl)%nat)
    ∧ ((severity lvl < severity (logLevel obj))%nat → c = NoOp ∧ st' = st).
Proof.
  intros Hobj Hi. unfold callLeveled. rewrite Hobj, leveled_log. cbn.
  eexists _, _. split; [reflexivity|]. split; [split|].
  - intros (r & Hc & _). destruct (Nat.le_gt_cases (severity (logLevel obj)) (severity lvl))
      as [|Hlt]; [done|].
    rewrite (log_below _ _ _ _ _ Hlt) in Hc. discriminate.
  - intros H. destruct (log_above obj i lvl message metadata err Hi H) as [r Hr].
    exists r. by rewrite Hr.
  - intros H. by rewrite (log_below _ _ _ _ _ H).
Qed.

(** C2. For a call that is severe enough to be forwarded: the implementation
    receives the level, the instance's group and name and the message; when
    the metadata argument is an Error it is passed in the error position and
    the metadata bag holds the common metadata only; otherwise the explicit
    error argument is passed in the error position and the bag is the common
    metadata overwritten, key by key, with the metadata argument. *)
Theorem C2_error_or_merged_metadata
    (lvl : LogLevel) (obj : DefaultLoggerInstance) (i : LoggerImplementation)
    (message : string) (metadata : Any) (err : option JsError) :
  impl obj = Some i →
  (severity (logLevel obj) ≤ severity lvl)%nat →
  ∃ r, leveled levelValue lvl obj message metadata err = Delegated i r
    ∧ recLevel r = lvl ∧ recGroup r = group obj ∧ recName r = name obj
    ∧ recMessage r = message
    ∧ match metadata with
      | AnError e =>
          recError r = Some e ∧ recMetadata r = spread (commonMetadata obj)
      | _ =>
          recError r = err
          ∧ ∀ key, recMetadata r !! key
                   = match spread metadata !! key with
                     | Some v => Some v
                     | None => spread (commonMetadata obj) !! key
                     end
      end.
Proof.
  intros Hi H. rewrite leveled_log.
  destruct (instanceofError metadata) as [e|] eqn:Hm.
  - destruct metadata; try discriminate. injection Hm as ->.
    eexists. split; [by apply log_error_metadata|]. done.
  - eexists. split; [by apply log_plain_metadata|]. cbn.
    assert (∀ key, spread2 (commonMetadata obj) metadata !! key
                   = match spread metadata !! key with
                     | Some v => Some v
                     | None => spread (commonMetadata obj) !! key
                     end) as Hmerge.
    { intros key. unfold spread2. rewrite lookup_union.
      by destruct (spread metadata !! key), (spread (commonMetadata obj) !! key). }
    destruct metadata; try discriminate; done.
Qed.

(** C10. For a forwarded call whose metadata argument is an Error object and
    which also carries an explicit error argument: the implementation
    receives the metadata Error in the error position, and the call it
    receives is the same whatever the explicit error argument is, which
    therefore reaches nothing. *)
Theorem C10_explicit_error_discarded
    (lvl : LogLevel) (obj : DefaultLoggerInstance) (i : LoggerImplementation)
    (message : string) (e explicit : JsError) :
  impl obj = Some i →
  (severity (logLevel obj) ≤ severity lvl)%nat →
  ∃ r, leveled levelValue lvl obj message (AnError e) (Some explicit) = Delegated i r
    ∧ recError r = Some e
    ∧ recMetadata r = spread (commonMetadata obj)
    ∧ ∀ other : option JsError,
        leveled levelValue lvl obj message (AnError e) other = Delegated i r.
Proof.
  intros Hi H. rewrite leveled_log. eexists. split; [by apply log_error_metadata|].
  repeat split. intros other. by apply log_error_metadata.
Qed.

End Guard.

(** ** The factory: initialisation and the cache *)

Section FactoryProperties.

Variable levelValue : LogLevel → Z.

Lemma lookupOrCreate_hit g n st instance :
  LOGGER_INSTANCE_CACHE st !! (g +:+ ":" +:+ n) = Some instance →
  lookupOrCreate g n st = Returned instance st.
Proof. intros H. unfold lookupOrCreate. by rewrite H. Qed.

Lemma lookupOrCreate_miss g n st :
  LOGGER_INSTANCE_CACHE st !! (g +:+ ":" +:+ n) = None →
  lookupOrCreate g n st
  = Returned (length (heap st))
      (withCACHE (<[g +:+ ":" +:+ n := length (heap st)]> (LOGGER_INSTANCE_CACHE st))
         (newDefaultLoggerInstance n g (getLogLevel (configuration st) g n) (LOGGER st) st).2).
Proof. intros H. unfold lookupOrCreate. by rewrite H. Qed.

(** [lookupOrCreate] always returns, and what it returns is cached. *)
Lemma lookupOrCreate_returns g n st :
  ∃ instance st',
    lookupOrCreate g n st = Returned instance st'
    ∧ LOGGER_INSTANCE_CACHE st' !! (g +:+ ":" +:+ n) = Some instance
    ∧ (∀ key r, LOGGER_INSTANCE_CACHE st !! key = Some r →
                LOGGER_INSTANCE_CACHE st' !! key = Some r)
    ∧ BINDINGS st' = BINDINGS st ∧ INITIALIZED st' = INITIALIZED st
    ∧ LOGGER st' = LOGGER st ∧ ROOT_LOGGER st' = ROOT_LOGGER st
    ∧ emitted st' = emitted st.
Proof.
  destruct (LOGGER_INSTANCE_CACHE st !! (g +:+ ":" +:+ n)) as [r|] eqn:H.
  - exists r, st. rewrite (lookupOrCreate_hit _ _ _ _ H). naive_solver.
  - eexists _, _. rewrite (lookupOrCreate_miss _ _ _ H). split; [done|]. cbn.
    split; [by rewrite lookup_insert_eq|]. split; [|done].
    intros key r Hk. rewrite lookup_insert_ne; [done|]. congruence.
Qed.

Lemma getLoggerFuel_S fuel g n st :
  getLoggerFuel levelValue (S fuel) g n st
  = if negb (INITIALIZED st) then
      match initialize levelValue (getLoggerFuel levelValue fuel) (withINITIALIZED true st) with
      | None => None
      | Some (Thrown e st1) => Some (Thrown e st1)
      | Some (Returned _ st1) => Some (lookupOrCreate g n st1)
      end
    else Some (lookupOrCreate g n st).
Proof. reflexivity. Qed.

Lemma getLoggerFuel_initialized fuel g n st :
  INITIALIZED st = true →
  getLoggerFuel levelValue (S fuel) g n st = Some (lookupOrCreate g n st).
Proof. intros H. rewrite getLoggerFuel_S. by rewrite H. Qed.

Lemma initialize_no_binding rec st :
  BINDINGS st = [] →
  initialize levelValue rec st = Some (Thrown "No Logger Binding found" st).
Proof. intros H. unfold initialize, BINDING. by rewrite H. Qed.

Lemma initialize_binding fuel binding bindings st :
  BINDINGS st = binding :: bindings →
  initialize levelValue (getLoggerFuel levelValue (S fuel)) (withINITIALIZED true st)
  = Some (Returned () (afterInitialize levelValue binding st)).
Proof.
  intros H. unfold initialize, afterInitialize, BINDING. cbn [BINDINGS withINITIALIZED].
  rewrite H. cbn [head]. rewrite getLoggerFuel_initialized by done.
  destruct (lookupOrCreate_returns "" ""
              (withLOGGER (Some (getLoggerImplementation binding)) (withINITIALIZED true st)))
    as (root & st2 & -> & _).
  cbn zeta. destruct (1 <? length _)%nat; [|done].
  by destruct (callLog _ _ _ _ _ _ _) as [[? ?]|].
Qed.

(** The three cases of [getLogger]. *)
Lemma getLogger_initialized g n st :
  INITIALIZED st = true → getLogger levelValue g n st = lookupOrCreate g n st.
Proof. intros H. unfold getLogger. by rewrite getLoggerFuel_initialized. Qed.

Lemma getLogger_no_binding g n st :
  INITIALIZED st = false → BINDINGS st = [] →
  getLogger levelValue g n st
  = Thrown "No Logger Binding found" (withINITIALIZED true st).
Proof.
  intros Hi Hb. unfold getLogger. rewrite getLoggerFuel_S, Hi. cbn [negb].
  by rewrite initialize_no_binding.
Qed.

Lemma getLogger_first g n st binding bindings :
  INITIALIZED st = false → BINDINGS st = binding :: bindings →
  getLogger levelValue g n st = lookupOrCreate g n (afterInitialize levelValue binding st).
Proof.
  intros Hi Hb. unfold getLogger. rewrite getLoggerFuel_S, Hi. cbn [negb].
  by rewrite (initialize_binding 0 _ _ _ Hb).
Qed.

(** [getLogger] needs two levels of recursion and no more: with any larger
    amount of fuel it computes the same outcome. *)
Lemma getLoggerFuel_enough fuel g n st :
  getLoggerFuel levelValue (S (S fuel)) g n st = Some (getLogger levelValue g n st).
Proof.
  destruct (INITIALIZED st) eqn:Hi.
  - by rewrite getLoggerFuel_initialized, getLogger_initialized.
  - destruct (BINDINGS st) as [|binding bindings] eqn:Hb.
    + rewrite getLogger_no_binding by done. rewrite getLoggerFuel_S, Hi. cbn [negb].
      by rewrite initialize_no_binding.
    + rewrite (getLogger_first _ _ _ _ _ Hi Hb). rewrite getLoggerFuel_S, Hi. cbn [negb].
      by rewrite (initialize_binding fuel _ _ _ Hb).
Qed.

Lemma compoundKey_root g n : g +:+ ":" +:+ n = ":" → g = "" ∧ n = "".
Proof.
  destruct g as [|a g]; intros H; cbn in H.
  - injection H as H. cbn in H. by subst.
  - injection H as _ H. destruct g; discriminate.
Qed.

Lemma newDefaultLoggerInstance_heap n g lvl i st :
  heap (newDefaultLoggerInstance n g lvl i st).2
  = heap st ++ [{| impl := i; name := n; group := g;
                   commonMetadata := Undefined; logLevel := lvl |}].
Proof. reflexivity. Qed.

Lemma newDefaultLoggerInstance_listeners n g lvl i st :
  listeners (configuration (newDefaultLoggerInstance n g lvl i st).2)
  = listeners (configuration st)
    ++ [(Exact g n, AssignLogLevel (length (heap st)));
        (Group g, AssignLogLevel (length (heap st)));
        (Global, AssignLogLevel (length (heap st)))].
Proof. cbn. by rewrite <- !app_assoc. Qed.

(** What [initialize] does when a binding exists and the root logger is not
    cached yet. *)
Lemma afterInitialize_cold binding st :
  LOGGER_INSTANCE_CACHE st !! ":" = None →
  let st' := afterInitialize levelValue binding st in
  BINDINGS st' = BINDINGS st ∧ INITIALIZED st' = true
  ∧ LOGGER st' = Some (getLoggerImplementation binding)
  ∧ ROOT_LOGGER st' = Some (length (heap st))
  ∧ LOGGER_INSTANCE_CACHE st' = <[":" := length (heap st)]> (LOGGER_INSTANCE_CACHE st)
  ∧ heap st' = heap st ++ [rootInstance binding st]
  ∧ configuration st'
    = configuration (newDefaultLoggerInstance "" "" (getLogLevel (configuration st) "" "")
                       (Some (getLoggerImplementation binding)) st).2
  ∧ emitted st'
    = emitted st
      ++ (if ((1 <? length (BINDINGS st))%nat
              && (levelValue INFO <=? levelValue (getLogLevel (configuration st) "" ""))%Z)
          then [(getLoggerImplementation binding,
                 multipleBindingsRecord (BINDINGS st) binding)]
          else []).
Proof.
  intros Hroot. unfold afterInitialize.
  rewrite lookupOrCreate_miss by exact Hroot.
  cbn [withROOT_LOGGER withCACHE withLOGGER withINITIALIZED BINDINGS heap
       newDefaultLoggerInstance snd LOGGER_INSTANCE_CACHE LOGGER configuration
       withConfiguration withHeap ROOT_LOGGER INITIALIZED emitted visible].
  destruct (1 <? length (BINDINGS st))%nat eqn:Hmany; cbn [andb].
  - unfold callLog.
    cbn [withROOT_LOGGER withCACHE withLOGGER withINITIALIZED BINDINGS heap
       newDefaultLoggerInstance snd LOGGER_INSTANCE_CACHE LOGGER configuration
       withConfiguration withHeap ROOT_LOGGER INITIALIZED emitted visible].
    rewrite list_lookup_middle by done. cbn [mbind option_bind].
    unfold log. cbn [logLevel impl instanceofError group name commonMetadata].
    destruct (levelValue INFO <=? _)%Z;
      cbn [deliver withEmitted BINDINGS INITIALIZED LOGGER ROOT_LOGGER
           LOGGER_INSTANCE_CACHE heap configuration emitted].
    + repeat split; try done.
      all: unfold multipleBindingsRecord, spread2; cbn [spread];
        by rewrite (left_id_L ∅ (∪)).
    + repeat split; try done. all: by rewrite app_nil_r.
  - repeat split; try done. all: by rewrite app_nil_r.
Qed.

(** C4. When no binding was discovered, the first [getLogger] call fails
    with the error "No Logger Binding found", raised by the initialisation
    it triggers; the call constructs no logger instance: the object store,
    the cache, the registry and the calls delivered to implementations are
    what they were. *)
Theorem C4_no_binding_first_getLogger_fails (g n : string) (st : State) :
  BINDINGS st = [] →
  INITIALIZED st = false →
  ∃ st', getLogger levelValue g n st = Thrown "No Logger Binding found" st'
    ∧ heap st' = heap st
    ∧ LOGGER_INSTANCE_CACHE st' = LOGGER_INSTANCE_CACHE st
    ∧ configuration st' = configuration st
    ∧ emitted st' = emitted st.
Proof.
  intros Hb Hi. eexists. split; [by apply getLogger_no_binding|]. done.
Qed.

End FactoryProperties.

(** ** Calls other than [reset] only extend the factory state *)

Lemma extends_refl st : extends st st.
Proof. unfold extends. naive_solver. Qed.

Lemma extends_trans st1 st2 st3 : extends st1 st2 → extends st2 st3 → extends st1 st3.
Proof.
  intros (Hb & Hc & Hi & Hh) (Hb' & Hc' & Hi' & Hh'). unfold extends.
  split; [congruence|]. split; [naive_solver|]. split; [naive_solver|lia].
Qed.

Lemma invoke_fields lvl st cb :
  BINDINGS (invoke lvl st cb) = BINDINGS st
  ∧ LOGGER (invoke lvl st cb) = LOGGER st
  ∧ ROOT_LOGGER (invoke lvl st cb) = ROOT_LOGGER st
  ∧ INITIALIZED (invoke lvl st cb) = INITIALIZED st
  ∧ LOGGER_INSTANCE_CACHE (invoke lvl st cb) = LOGGER_INSTANCE_CACHE st
  ∧ configuration (invoke lvl st cb) = configuration st
  ∧ emitted (invoke lvl st cb) = emitted st
  ∧ length (heap (invoke lvl st cb)) = length (heap st).
Proof.
  destruct cb as [this]. cbn. destruct (heap st !! this); cbn; [|done].
  by rewrite length_insert.
Qed.

Lemma foldl_invoke_fields lvl cbs st :
  BINDINGS (foldl (invoke lvl) st cbs) = BINDINGS st
  ∧ LOGGER (foldl (invoke lvl) st cbs) = LOGGER st
  ∧ ROOT_LOGGER (foldl (invoke lvl) st cbs) = ROOT_LOGGER st
  ∧ INITIALIZED (foldl (invoke lvl) st cbs) = INITIALIZED st
  ∧ LOGGER_INSTANCE_CACHE (foldl (invoke lvl) st cbs) = LOGGER_INSTANCE_CACHE st
  ∧ configuration (foldl (invoke lvl) st cbs) = configuration st
  ∧ emitted (foldl (invoke lvl) st cbs) = emitted st
  ∧ length (heap (foldl (invoke lvl) st cbs)) = length (heap st).
Proof.
  revert st. induction cbs as [|cb cbs IH]; intros st; [done|]. cbn [foldl].
  destruct (IH (invoke lvl st cb)) as (-> & -> & -> & -> & -> & -> & -> & ->).
  apply invoke_fields.
Qed.

Lemma setLogLevel_fields lvl sel st :
  BINDINGS (setLogLevel lvl sel st) = BINDINGS st
  ∧ LOGGER (setLogLevel lvl sel st) = LOGGER st
  ∧ ROOT_LOGGER (setLogLevel lvl sel st) = ROOT_LOGGER st
  ∧ INITIALIZED (setLogLevel lvl sel st) = INITIALIZED st
  ∧ LOGGER_INSTANCE_CACHE (setLogLevel lvl sel st) = LOGGER_INSTANCE_CACHE st
  ∧ configuration (setLogLevel lvl sel st) = applyOverride lvl sel (configuration st)
  ∧ emitted (setLogLevel lvl sel st) = emitted st
  ∧ length (heap (setLogLevel lvl sel st)) = length (heap st).
Proof.
  unfold setLogLevel.
  destruct (foldl_invoke_fields lvl
              (subscribers sel (applyOverride lvl sel (configuration st)))
              (withConfiguration (applyOverride lvl sel (configuration st)) st))
    as (-> & -> & -> & -> & -> & -> & -> & ->).
  done.
Qed.

Lemma setLogLevel_extends lvl sel st : extends st (setLogLevel lvl sel st).
Proof.
  destruct (setLogLevel_fields lvl sel st) as (Hb & _ & _ & Hi & Hc & _ & _ & Hh).
  unfold extends. rewrite Hb, Hi, Hc, Hh. naive_solver.
Qed.

Lemma callSetMetadata_extends this metadata st : extends st (callSetMetadata this metadata st).
Proof.
  unfold callSetMetadata, extends. destruct (heap st !! this); cbn; [|naive_solver].
  rewrite length_insert. naive_solver.
Qed.

Lemma deliver_extends c st : extends st (deliver c st).
Proof. destruct c; cbn; unfold extends; cbn; naive_solver. Qed.

Lemma lookupOrCreate_extends g n st : extends st (stateOf (lookupOrCreate g n st)).
Proof.
  destruct (LOGGER_INSTANCE_CACHE st !! (g +:+ ":" +:+ n)) as [r|] eqn:H.
  - rewrite (lookupOrCreate_hit _ _ _ _ H). apply extends_refl.
  - rewrite (lookupOrCreate_miss _ _ _ H). unfold extends. cbn.
    split; [done|]. split; [|split; [done|]].
    + intros key r Hk. rewrite lookup_insert_ne; [done|]. congruence.
    + rewrite length_app. lia.
Qed.

Section Extension.

Variable levelValue : LogLevel → Z.

Lemma callLeveled_extends lvl this message metadata err st c st' :
  callLeveled levelValue lvl this message metadata err st = Some (c, st') → extends st st'.
Proof.
  unfold callLeveled. destruct (heap st !! this); cbn; [|done].
  intros [= _ <-]. apply deliver_extends.
Qed.

Lemma afterInitialize_extends binding st :
  extends st (afterInitialize levelValue binding st)
  ∧ INITIALIZED (afterInitialize levelValue binding st) = true.
Proof.
  unfold afterInitialize.
  set (st1 := withLOGGER _ _).
  pose proof (lookupOrCreate_extends "" "" st1) as Hext.
  destruct (lookupOrCreate_returns "" "" st1) as (root & st2 & Hl & _ & _ & _ & Hi & _).
  rewrite Hl in Hext |- *. cbn [stateOf] in Hext.
  assert (extends st (withROOT_LOGGER (Some root) st2)) as Hroot.
  { destruct Hext as (Hb & Hc & _ & Hh). unfold extends. cbn in *. naive_solver. }
  assert (INITIALIZED (withROOT_LOGGER (Some root) st2) = true) as Hinit by (cbn; by rewrite Hi).
  destruct (1 <? length _); [|done].
  unfold callLog. cbn [heap withROOT_LOGGER].
  destruct (heap st2 !! root); cbn [mbind option_bind]; [|done].
  split.
  - eapply extends_trans; [exact Hroot|apply deliver_extends].
  - by destruct (log _ _ _ _ _ _).
Qed.

(** The outcome of [getLogger], whatever the state. *)
Lemma getLogger_outcome g n st :
  match getLogger levelValue g n st with
  | Returned instance st' =>
      LOGGER_INSTANCE_CACHE st' !! (g +:+ ":" +:+ n) = Some instance
      ∧ extends st st' ∧ INITIALIZED st' = true
      ∧ (INITIALIZED st = true ∨ BINDINGS st ≠ [])
  | Thrown e st' =>
      e = "No Logger Binding found" ∧ INITIALIZED st = false ∧ BINDINGS st = []
      ∧ st' = withINITIALIZED true st
  end.
Proof.
  destruct (INITIALIZED st) eqn:Hi.
  - rewrite getLogger_initialized by done.
    pose proof (lookupOrCreate_extends g n st) as Hext.
    destruct (lookupOrCreate_returns g n st) as (r & st' & Hl & Hc & _ & _ & Hi' & _).
    rewrite Hl in Hext |- *. cbn in Hext. rewrite Hi' , Hi. naive_solver.
  - destruct (BINDINGS st) as [|binding bindings] eqn:Hb.
    + by rewrite getLogger_no_binding.
    + rewrite (getLogger_first _ _ _ _ _ _ Hi Hb).
      destruct (afterInitialize_extends binding st) as [Hinit Htrue].
      pose proof (lookupOrCreate_extends g n (afterInitialize levelValue binding st)) as Hext.
      destruct (lookupOrCreate_returns g n (afterInitialize levelValue binding st))
        as (r & st' & Hl & Hc & _ & _ & Hi' & _).
      rewrite Hl in Hext |- *. cbn in Hext. rewrite Hi', Htrue.
      split; [done|]. split; [by eapply extends_trans|]. split; [done|]. by right.
Qed.

Lemma getLogger_extends g n st : extends st (stateOf (getLogger levelValue g n st)).
Proof.
  pose proof (getLogger_outcome g n st) as H.
  destruct (getLogger levelValue g n st) as [r st'|e st']; cbn [stateOf].
  - by destruct H as (_ & Hext & _).
  - destruct H as (_ & _ & _ & ->). unfold extends. cbn. auto.
Qed.

Lemma perform_extends op st :
  isReset op = false → extends st (perform levelValue st op).
Proof.
  destruct op as [env|g n|b|lvl sel|this metadata|lvl this message metadata err];
    cbn [isReset perform]; intros H; try discriminate.
  - unfold extends. cbn. naive_solver.
  - apply getLogger_extends.
  - apply setLogLevel_extends.
  - apply callSetMetadata_extends.
  - destruct (callLeveled _ _ _ _ _ _ _) as [[c st']|] eqn:Hc.
    + by eapply callLeveled_extends.
    + apply extends_refl.
Qed.

Lemma performAll_extends ops st :
  forallb (λ op, negb (isReset op)) ops = true → extends st (performAll levelValue ops st).
Proof.
  revert st. induction ops as [|op ops IH]; intros st H; [apply extends_refl|].
  cbn in H. apply andb_prop in H as [Hop Hops]. apply negb_true_iff in Hop.
  unfold performAll. cbn [foldl].
  eapply extends_trans; [by apply perform_extends|]. by apply IH.
Qed.

(** No call, [reset] included, and no change of the environment touches the
    list of bindings found when the module was loaded. *)
Lemma perform_BINDINGS op st : BINDINGS (perform levelValue st op) = BINDINGS st.
Proof.
  destruct (isReset op) eqn:Hr.
  - destruct op as [| |[]| | |]; try discriminate; done.
  - by destruct (perform_extends op st Hr) as (-> & _).
Qed.

Lemma performAll_BINDINGS ops st : BINDINGS (performAll levelValue ops st) = BINDINGS st.
Proof.
  revert st. induction ops as [|op ops IH]; intros st; [done|].
  unfold performAll. cbn [foldl]. rewrite <- (perform_BINDINGS op st). apply IH.
Qed.

End Extension.

(** ** Construction on a cache miss *)

Lemma getLogLevel_levels cfg cfg' g n :
  exactLevels cfg' = exactLevels cfg → groupLevels cfg' = groupLevels cfg →
  globalLevel cfg' = globalLevel cfg →
  getLogLevel cfg' g n = getLogLevel cfg g n.
Proof. intros He Hg Hgl. unfold getLogLevel. by rewrite He, Hg, Hgl. Qed.

Lemma lookupOrCreate_constructs g n st :
  LOGGER_INSTANCE_CACHE st !! (g +:+ ":" +:+ n) = None →
  ∃ st', lookupOrCreate g n st = Returned (length (heap st)) st'
    ∧ heap st' = heap st ++ [{| impl := LOGGER st; name := n; group := g;
                                commonMetadata := Undefined;
                                logLevel := getLogLevel (configuration st) g n |}].
Proof. intros H. eexists. by rewrite (lookupOrCreate_miss _ _ _ H). Qed.

Section Construction.

Variable levelValue : LogLevel → Z.

(** On a cache miss [getLogger] returns an instance that did not exist
    before the call, carrying the requested group and name and the level the
    registry resolves at the time of the call. *)
Lemma getLogger_constructs g n st :
  coldCacheEmpty st →
  LOGGER_INSTANCE_CACHE st !! (g +:+ ":" +:+ n) = None →
  INITIALIZED st = true ∨ BINDINGS st ≠ [] →
  ∃ instance st' obj,
    getLogger levelValue g n st = Returned instance st'
    ∧ length (heap st) ≤ instance
    ∧ heap st' !! instance = Some obj
    ∧ group obj = g ∧ name obj = n
    ∧ logLevel obj = getLogLevel (configuration st) g n
    ∧ commonMetadata obj = Undefined
    ∧ impl obj = (if INITIALIZED st then LOGGER st
                  else getLoggerImplementation <$> head (BINDINGS st)).
Proof.
  intros Hcold Hmiss Hok. destruct (INITIALIZED st) eqn:Hi.
  - destruct (lookupOrCreate_constructs g n st Hmiss) as (st' & Hl & Hh).
    eexists _, st', _. rewrite getLogger_initialized by done.
    split; [exact Hl|]. split; [done|]. rewrite Hh.
    split; [by apply list_lookup_middle|]. done.
  - destruct Hok as [|Hb]; [done|].
    destruct (BINDINGS st) as [|binding bindings] eqn:Hbs; [done|].
    rewrite (getLogger_first _ _ _ _ _ _ Hi Hbs).
    assert (LOGGER_INSTANCE_CACHE st !! ":" = None) as Hroot.
    { rewrite (Hcold Hi). apply lookup_empty. }
    pose proof (afterInitialize_cold levelValue binding st Hroot) as Hinit.
    cbn zeta in Hinit.
    destruct Hinit as (_ & _ & Hlogger & _ & Hcache & Hheap & Hcfg & _).
    set (st1 := afterInitialize levelValue binding st) in *.
    destruct (LOGGER_INSTANCE_CACHE st1 !! (g +:+ ":" +:+ n)) as [r|] eqn:Hkey.
    + (* the requested logger is the root logger *)
      rewrite (lookupOrCreate_hit _ _ _ _ Hkey).
      rewrite Hcache, (Hcold Hi), lookup_insert in Hkey.
      case_decide as Heq; [|by rewrite lookup_empty in Hkey].
      injection Hkey as <-. symmetry in Heq.
      apply compoundKey_root in Heq as [-> ->].
      eexists _, _, _. split; [done|]. split; [done|]. rewrite Hheap.
      split; [by apply list_lookup_middle|]. done.
    + destruct (lookupOrCreate_constructs g n st1 Hkey) as (st' & Hl & Hh).
      eexists _, st', _. split; [exact Hl|]. rewrite Hheap at 1.
      split; [rewrite length_app; lia|]. rewrite Hh.
      split; [by apply list_lookup_middle|]. cbn.
      rewrite Hlogger, Hcfg. done.
Qed.

End Construction.

(** ** Well-formedness is an invariant *)

Lemma loadModule_wellFormed environment : wellFormed (loadModule environment).
Proof. split; [done|]. intros key r H. cbn in H. by rewrite lookup_empty in H. Qed.

Lemma reset_wellFormed b st : wellFormed (reset b st).
Proof.
  split.
  - intros _. by destruct b.
  - intros key r H. destruct b; cbn in H; by rewrite lookup_empty in H.
Qed.

Lemma lookupOrCreate_cacheValid g n st :
  cacheValid st → cacheValid (stateOf (lookupOrCreate g n st)).
Proof.
  intros Hv. destruct (LOGGER_INSTANCE_CACHE st !! (g +:+ ":" +:+ n)) as [r|] eqn:H.
  - by rewrite (lookupOrCreate_hit _ _ _ _ H).
  - rewrite (lookupOrCreate_miss _ _ _ H). intros key r. cbn.
    rewrite length_app, lookup_insert. cbn. case_decide.
    + intros [= <-]. lia.
    + intros Hk. apply Hv in Hk. lia.
Qed.

Lemma cacheValid_same st st' :
  LOGGER_INSTANCE_CACHE st' = LOGGER_INSTANCE_CACHE st →
  length (heap st') = length (heap st) →
  cacheValid st → cacheValid st'.
Proof. intros Hc Hh Hv key r. rewrite Hc, Hh. apply Hv. Qed.

Section Invariant.

Variable levelValue : LogLevel → Z.

Lemma afterInitialize_cacheValid binding st :
  cacheValid st → cacheValid (afterInitialize levelValue binding st).
Proof.
  intros Hv. unfold afterInitialize. set (st1 := withLOGGER _ _).
  assert (cacheValid st1) as Hv1 by (by eapply cacheValid_same; [| |exact Hv]).
  apply (lookupOrCreate_cacheValid "" "") in Hv1.
  destruct (lookupOrCreate "" "" st1) as [root st2|e st2]; cbn [stateOf] in Hv1; [|done].
  assert (cacheValid (withROOT_LOGGER (Some root) st2)) as Hv3
    by (by eapply cacheValid_same; [| |exact Hv1]).
  destruct (1 <? length _); [|done].
  unfold callLog. destruct (heap _ !! root); cbn [mbind option_bind]; [|done].
  eapply cacheValid_same; [| |exact Hv3]; by destruct (log _ _ _ _ _ _).
Qed.

Lemma getLogger_wellFormed g n st :
  wellFormed st → wellFormed (stateOf (getLogger levelValue g n st)).
Proof.
  intros [Hcold Hv]. split.
  - intros Hi. pose proof (getLogger_outcome levelValue g n st) as H.
    destruct (getLogger levelValue g n st); cbn in Hi.
    + destruct H as (_ & _ & Ht & _). congruence.
    + destruct H as (_ & _ & _ & ->). done.
  - destruct (INITIALIZED st) eqn:Hi.
    + rewrite getLogger_initialized by done. by apply lookupOrCreate_cacheValid.
    + destruct (BINDINGS st) as [|binding bindings] eqn:Hb.
      * rewrite getLogger_no_binding by done. cbn. by eapply cacheValid_same; [| |exact Hv].
      * rewrite (getLogger_first _ _ _ _ _ _ Hi Hb).
        by apply lookupOrCreate_cacheValid, afterInitialize_cacheValid.
Qed.

Lemma perform_wellFormed op st : wellFormed st → wellFormed (perform levelValue st op).
Proof.
  intros Hwf.
  destruct op as [env|g n|b|lvl sel|this metadata|lvl this message metadata err];
    cbn [perform].
  - done.
  - by apply getLogger_wellFormed.
  - apply reset_wellFormed.
  - destruct Hwf as [Hcold Hv].
    destruct (setLogLevel_fields lvl sel st) as (_ & _ & _ & Hi & Hc & _ & _ & Hh).
    split; [|by eapply cacheValid_same; [| |exact Hv]].
    unfold coldCacheEmpty. rewrite Hi, Hc. exact Hcold.
  - destruct Hwf as [Hcold Hv]. unfold callSetMetadata.
    destruct (heap st !! this); [|done].
    split; [exact Hcold|]. eapply cacheValid_same; [| |exact Hv]; [done|].
    cbn. by rewrite length_insert.
  - unfold callLeveled. destruct (heap st !! this); cbn [mbind option_bind]; [|done].
    destruct Hwf as [Hcold Hv]. by destruct (leveled _ _ _ _ _ _).
Qed.

Lemma performAll_wellFormed ops st : wellFormed st → wellFormed (performAll levelValue ops st).
Proof.
  revert st. induction ops as [|op ops IH]; intros st H; [done|].
  unfold performAll. cbn [foldl]. by apply IH, perform_wellFormed.
Qed.

(** Every state a program reaches from a freshly loaded module is
    well-formed. *)
Lemma reachable_wellFormed environment ops :
  wellFormed (performAll levelValue ops (loadModule environment)).
Proof. apply performAll_wellFormed, loadModule_wellFormed. Qed.

Lemma getLogger_returns g n st :
  INITIALIZED st = true ∨ BINDINGS st ≠ [] →
  ∃ instance st', getLogger levelValue g n st = Returned instance st'.
Proof.
  intros Hok. pose proof (getLogger_outcome levelValue g n st) as H.
  destruct (getLogger levelValue g n st) as [r st'|e st']; [by eexists _, _|].
  destruct H as (_ & Hi & Hb & _). destruct Hok; congruence.
Qed.

(** C3. Where [getLogger] can return (the factory is initialised, or a
    binding was discovered), a call for (group, name) returns an instance
    such that: after any calls other than [reset], a further call for the
    same pair returns that same reference and changes nothing; in no state
    that a program reaches does the cache hold two references for one pair;
    and after [reset()] the next call returns a reference that named no
    instance before, distinct from the former one, to an instance whose
    level is the one the registry resolves then. The same holds after
    [reset(true)] when a binding was discovered. *)
Theorem C3_same_instance_until_reset (g n : string) (st : State) :
  wellFormed st →
  INITIALIZED st = true ∨ BINDINGS st ≠ [] →
  ∃ instance st1,
    getLogger levelValue g n st = Returned instance st1
    ∧ (∀ ops, forallb (λ op, negb (isReset op)) ops = true →
         getLogger levelValue g n (performAll levelValue ops st1)
         = Returned instance (performAll levelValue ops st1))
    ∧ (∀ ops g' n' r1 r2,
         LOGGER_INSTANCE_CACHE (performAll levelValue ops st1) !! (g' +:+ ":" +:+ n') = Some r1 →
         LOGGER_INSTANCE_CACHE (performAll levelValue ops st1) !! (g' +:+ ":" +:+ n') = Some r2 →
         r1 = r2)
    ∧ (∀ b, b = false ∨ BINDINGS st ≠ [] →
         ∃ fresh st2 obj,
           getLogger levelValue g n (reset b st1) = Returned fresh st2
           ∧ heap st1 !! fresh = None
           ∧ fresh ≠ instance
           ∧ heap st2 !! fresh = Some obj
           ∧ group obj = g ∧ name obj = n
           ∧ logLevel obj = getLogLevel (configuration (reset b st1)) g n).
Proof.
  intros Hwf Hok. destruct (getLogger_returns g n st Hok) as (instance & st1 & Hget).
  pose proof (getLogger_outcome levelValue g n st) as Hout.
  pose proof (getLogger_wellFormed g n st Hwf) as Hwf1.
  rewrite Hget in Hout, Hwf1. cbn [stateOf] in Hwf1.
  destruct Hout as (Hcached & (Hb1 & _) & Hinit1 & _).
  exists instance, st1. split; [done|]. split; [|split].
  - intros ops Hops.
    destruct (performAll_extends levelValue ops st1 Hops) as (_ & Hc & Hi & _).
    rewrite getLogger_initialized by auto.
    apply lookupOrCreate_hit. by apply Hc.
  - intros ops g' n' r1 r2 H1 H2. congruence.
  - intros b Hb.
    assert (INITIALIZED (reset b st1) = true ∨ BINDINGS (reset b st1) ≠ []) as Hok'.
    { destruct b; cbn.
      - right. rewrite Hb1. by destruct Hb.
      - by left. }
    assert (LOGGER_INSTANCE_CACHE (reset b st1) !! (g +:+ ":" +:+ n) = None) as Hmiss
      by (destruct b; apply lookup_empty).
    destruct (getLogger_constructs levelValue g n (reset b st1)
                (proj1 (reset_wellFormed b st1)) Hmiss Hok')
      as (fresh & st2 & obj & Hg & Hlen & Hobj & Hgr & Hnm & Hlvl & _).
    assert (length (heap (reset b st1)) = length (heap st1)) as Hh by (by destruct b).
    rewrite Hh in Hlen.
    exists fresh, st2, obj. split; [done|].
    split; [by apply lookup_ge_None|].
    split; [|done].
    destruct Hwf1 as [_ Hv]. apply Hv in Hcached. lia.
Qed.

(** C9. Two pairs whose compound keys [group + ":" + name] coincide share
    one cache entry: when the first is requested on a cache miss, a later
    request for the second returns the very same instance, whose stored
    group and name are those of the first request. *)
Theorem C9_colliding_keys_share_instance (g1 n1 g2 n2 : string) (st : State) :
  g1 +:+ ":" +:+ n1 = g2 +:+ ":" +:+ n2 →
  coldCacheEmpty st →
  LOGGER_INSTANCE_CACHE st !! (g1 +:+ ":" +:+ n1) = None →
  INITIALIZED st = true ∨ BINDINGS st ≠ [] →
  ∃ instance st1 obj,
    getLogger levelValue g1 n1 st = Returned instance st1
    ∧ getLogger levelValue g2 n2 st1 = Returned instance st1
    ∧ heap st1 !! instance = Some obj
    ∧ group obj = g1 ∧ name obj = n1.
Proof.
  intros Hkey Hcold Hmiss Hok.
  destruct (getLogger_constructs levelValue g1 n1 st Hcold Hmiss Hok)
    as (instance & st1 & obj & Hg & _ & Hobj & Hgr & Hnm & _).
  pose proof (getLogger_outcome levelValue g1 n1 st) as Hout. rewrite Hg in Hout.
  destruct Hout as (Hcached & _ & Hinit & _).
  exists instance, st1, obj. split; [done|]. split; [|done].
  rewrite getLogger_initialized by done. apply lookupOrCreate_hit. by rewrite <- Hkey.
Qed.

End Invariant.

(** ** Initialisation: the selected binding and the diagnostic *)

Lemma append_assoc (a b c : string) : (a +:+ b) +:+ c = a +:+ b +:+ c.
Proof.
  induction a as [|x a IH]; [done|].
  change (String x ((a +:+ b) +:+ c) = String x (a +:+ b +:+ c)). by rewrite IH.
Qed.

(** The diagnostic is the header, one line per discovered binding in
    discovery order, and the line naming the binding in use. *)
Lemma multipleBindingsMessage_lines bindings binding :
  multipleBindingsMessage bindings binding
  = "multiple bindings found:"
    +:+ foldr (λ b rest, bindingLine b +:+ rest) "" bindings
    +:+ newline +:+ "  using " +:+ getVendor binding +:+ " - " +:+ getVersion binding.
Proof.
  unfold multipleBindingsMessage. generalize "multiple bindings found:" as header.
  induction bindings as [|b bindings IH]; intros header; cbn [foldl foldr].
  - done.
  - by rewrite IH, !append_assoc.
Qed.

Lemma lookupOrCreate_heap g n st :
  ∃ tail, heap (stateOf (lookupOrCreate g n st)) = heap st ++ tail.
Proof.
  destruct (LOGGER_INSTANCE_CACHE st !! (g +:+ ":" +:+ n)) as [r|] eqn:H.
  - rewrite (lookupOrCreate_hit _ _ _ _ H). exists []. by rewrite app_nil_r.
  - rewrite (lookupOrCreate_miss _ _ _ H). by eexists.
Qed.

Section Initialisation.

Variable levelValue : LogLevel → Z.

Lemma getLogger_initialized_emitted g n st :
  INITIALIZED st = true → emitted (stateOf (getLogger levelValue g n st)) = emitted st.
Proof.
  intros Hi. rewrite getLogger_initialized by done.
  destruct (lookupOrCreate_returns g n st) as (r & st' & -> & _ & _ & _ & _ & _ & _ & He).
  done.
Qed.

(** The first [getLogger] call of a process in which a binding was
    discovered. *)
Lemma getLogger_initialises g n st binding bindings :
  coldCacheEmpty st →
  INITIALIZED st = false →
  BINDINGS st = binding :: bindings →
  ∃ instance st',
    getLogger levelValue g n st = Returned instance st'
    ∧ BINDINGS st' = BINDINGS st
    ∧ INITIALIZED st' = true
    ∧ LOGGER st' = Some (getLoggerImplementation binding)
    ∧ ROOT_LOGGER st' = Some (length (heap st))
    ∧ heap st' !! length (heap st) = Some (rootInstance binding st)
    ∧ emitted st'
      = emitted st
        ++ (if ((1 <? length (BINDINGS st))%nat
                && (levelValue INFO <=? levelValue (getLogLevel (configuration st) "" ""))%Z)
            then [(getLoggerImplementation binding,
                   multipleBindingsRecord (BINDINGS st) binding)]
            else []).
Proof.
  intros Hcold Hi Hb. rewrite (getLogger_first _ _ _ _ _ _ Hi Hb).
  assert (LOGGER_INSTANCE_CACHE st !! ":" = None) as Hroot
    by (rewrite (Hcold Hi); apply lookup_empty).
  pose proof (afterInitialize_cold levelValue binding st Hroot) as Hinit. cbn zeta in Hinit.
  destruct Hinit as (Hb1 & Hi1 & Hlogger & Hrootl & _ & Hheap & _ & Hemit).
  set (st1 := afterInitialize levelValue binding st) in *.
  destruct (lookupOrCreate_heap g n st1) as [tail Htail].
  destruct (lookupOrCreate_returns g n st1)
    as (r & st' & Hl & _ & _ & Hb' & Hi' & Hlog' & Hroot' & Hemit').
  rewrite Hl in Htail |- *. cbn [stateOf] in Htail.
  exists r, st'. split; [done|].
  rewrite Hb', Hi', Hlog', Hroot', Hemit', Htail, Hheap.
  repeat split; try done.
  rewrite <- app_assoc. by apply list_lookup_middle.
Qed.

(** C8. When more than one binding was discovered, the initialisation run
    by [getLogger] selects the first one as the active implementation,
    constructs the root logger (empty group and name) and calls its [info]
    once with a message that lists every discovered binding's vendor and
    version and names the selected one. That call is subject to the root
    logger's threshold like any other: when the level the registry resolves
    for the root logger is INFO or less severe, exactly one record, at level
    INFO, reaches the selected implementation; when it is more severe,
    nothing is emitted. In both cases [getLogger] returns normally, and calls
    made once the factory is initialised emit nothing. *)
Theorem C8_multiple_bindings_diagnostic
    (g n : string) (st : State) (first second : LoggerBinding) (others : list LoggerBinding) :
  descending levelValue →
  coldCacheEmpty st →
  INITIALIZED st = false →
  BINDINGS st = first :: second :: others →
  ∃ instance st',
    getLogger levelValue g n st = Returned instance st'
    ∧ LOGGER st' = Some (getLoggerImplementation first)
    ∧ ROOT_LOGGER st' = Some (length (heap st))
    ∧ heap st' !! length (heap st) = Some (rootInstance first st)
    ∧ ((severity (getLogLevel (configuration st) "" "") ≤ severity INFO)%nat →
         emitted st'
         = emitted st ++ [(getLoggerImplementation first,
                           multipleBindingsRecord (BINDINGS st) first)])
    ∧ ((severity INFO < severity (getLogLevel (configuration st) "" ""))%nat →
         emitted st' = emitted st)
    ∧ recMessage (multipleBindingsRecord (BINDINGS st) first)
      = "multiple bindings found:"
        +:+ foldr (λ b rest, bindingLine b +:+ rest) "" (BINDINGS st)
        +:+ newline +:+ "  using " +:+ getVendor first +:+ " - " +:+ getVersion first
    ∧ (∀ g' n', emitted (stateOf (getLogger levelValue g' n' st')) = emitted st').
Proof.
  intros Hdesc Hcold Hi Hb.
  destruct (getLogger_initialises g n st first (second :: others) Hcold Hi Hb)
    as (instance & st' & Hget & _ & Hi' & Hlogger & Hroot & Hheap & Hemit).
  exists instance, st'. rewrite Hb in Hemit. cbn [length Nat.ltb Nat.leb andb] in Hemit.
  repeat split; try done.
  - intros Hsev. apply (guard_true levelValue Hdesc) in Hsev. rewrite Hsev in Hemit.
    by rewrite Hb.
  - intros Hsev. apply (guard_false levelValue Hdesc) in Hsev. rewrite Hsev in Hemit.
    by rewrite Hemit, app_nil_r.
  - apply multipleBindingsMessage_lines.
  - intros g' n'. by apply getLogger_initialized_emitted.
Qed.

(** C6. [reset] always empties the instance cache and leaves the list of
    discovered bindings as it is, as does every other call, whatever
    bindings are visible by then. With [true] it also clears the
    initialisation flag, so that the next [getLogger] runs [initialize]
    again: on the same list of bindings, it fails if that list is empty and
    otherwise takes the implementation of its first binding and constructs
    a new root logger. *)
Theorem C6_reset_clears_cache_and_rearms_initialize
    (resetLoggerImplementation : bool) (g n : string) (st : State) :
  LOGGER_INSTANCE_CACHE (reset resetLoggerImplementation st) = ∅
  ∧ INITIALIZED (reset resetLoggerImplementation st)
    = (if resetLoggerImplementation then false else INITIALIZED st)
  ∧ BINDINGS (reset resetLoggerImplementation st) = BINDINGS st
  ∧ (∀ ops, BINDINGS (performAll levelValue ops st) = BINDINGS st)
  ∧ heap (reset resetLoggerImplementation st) = heap st
  ∧ configuration (reset resetLoggerImplementation st) = configuration st
  ∧ match BINDINGS st with
    | [] =>
        getLogger levelValue g n (reset true st)
        = Thrown "No Logger Binding found" (withINITIALIZED true (reset true st))
    | binding :: _ =>
        ∃ instance st',
          getLogger levelValue g n (reset true st) = Returned instance st'
          ∧ BINDINGS st' = BINDINGS st
          ∧ LOGGER st' = Some (getLoggerImplementation binding)
          ∧ ROOT_LOGGER st' = Some (length (heap st))
          ∧ heap st' !! length (heap st) = Some (rootInstance binding st)
    end.
Proof.
  repeat split; try (by destruct resetLoggerImplementation).
  { intros ops. apply performAll_BINDINGS. }
  destruct (BINDINGS st) as [|binding bindings] eqn:Hb.
  - by apply getLogger_no_binding.
  - destruct (getLogger_initialises g n (reset true st) binding bindings)
      as (instance & st' & Hget & Hb' & _ & Hlogger & Hroot & Hheap & _);
      [apply reset_wellFormed|done|done|].
    exists instance, st'. split; [exact Hget|]. split; [rewrite Hb'; exact Hb|].
    split; [exact Hlogger|]. split; [exact Hroot|exact Hheap].
Qed.

End Initialisation.

(** ** Level changes reach the subscribed instances *)

Lemma assignLogLevel_idem obj lvl :
  assignLogLevel (assignLogLevel obj lvl) lvl = assignLogLevel obj lvl.
Proof. reflexivity. Qed.

(** After the callbacks [cbs] have run, an instance carries the new level
    exactly when one of them captured it. *)
Lemma foldl_invoke_heap lvl cbs st this obj :
  heap st !! this = Some obj →
  heap (foldl (invoke lvl) st cbs) !! this
  = Some (if decide (AssignLogLevel this ∈ cbs) then assignLogLevel obj lvl else obj).
Proof.
  revert st obj. induction cbs as [|[r] cbs IH]; intros st obj Hobj; cbn [foldl].
  - rewrite decide_False; [done|]. apply not_elem_of_nil.
  - destruct (decide (r = this)) as [->|Hne].
    + assert (heap (invoke lvl st (AssignLogLevel this)) !! this
              = Some (assignLogLevel obj lvl)) as Hstep.
      { cbn. rewrite Hobj. cbn. apply list_lookup_insert_eq. by eapply lookup_lt_Some. }
      rewrite (IH _ _ Hstep), assignLogLevel_idem.
      rewrite (decide_True (P := AssignLogLevel this ∈ AssignLogLevel this :: cbs));
        [|by left].
      by case_decide.
    + assert (heap (invoke lvl st (AssignLogLevel r)) !! this = Some obj) as Hstep.
      { cbn. destruct (heap st !! r); cbn; [|done]. by rewrite list_lookup_insert_ne. }
      rewrite (IH _ _ Hstep).
      destruct (decide (AssignLogLevel this ∈ cbs)) as [Hin|Hnin].
      * rewrite decide_True; [done|]. by right.
      * rewrite decide_False; [done|]. intros [Heq|Hin]%elem_of_cons; [|done]. congruence.
Qed.

Lemma subscribers_elem sel cfg cb :
  cb ∈ subscribers sel cfg ↔ (sel, cb) ∈ listeners cfg.
Proof.
  unfold subscribers. rewrite list_elem_of_fmap. split.
  - intros ([sel' cb'] & -> & [Hsel Hin]%list_elem_of_filter). cbn in *. by subst.
  - intros Hin. exists (sel, cb). split; [done|]. by apply list_elem_of_filter.
Qed.

Lemma applyOverride_listeners lvl sel cfg :
  listeners (applyOverride lvl sel cfg) = listeners cfg.
Proof. by destruct sel. Qed.

Lemma setLogLevel_heap lvl sel st this obj :
  heap st !! this = Some obj →
  heap (setLogLevel lvl sel st) !! this
  = Some (if decide ((sel, AssignLogLevel this) ∈ listeners (configuration st))
          then assignLogLevel obj lvl else obj).
Proof.
  intros Hobj. unfold setLogLevel.
  rewrite (foldl_invoke_heap lvl _ _ this obj) by done.
  destruct (decide (AssignLogLevel this ∈ _)) as [Hin|Hnin].
  - apply subscribers_elem in Hin. rewrite applyOverride_listeners in Hin.
    by rewrite decide_True.
  - rewrite decide_False; [done|]. intros Hin. apply Hnin, subscribers_elem.
    by rewrite applyOverride_listeners.
Qed.

Lemma setLogLevel_heap_inv lvl sel st this obj' :
  heap (setLogLevel lvl sel st) !! this = Some obj' →
  ∃ obj, heap st !! this = Some obj ∧ (obj' = obj ∨ obj' = assignLogLevel obj lvl).
Proof.
  intros H. destruct (heap st !! this) as [obj|] eqn:Hobj.
  - rewrite (setLogLevel_heap _ _ _ _ _ Hobj) in H. exists obj. split; [done|].
    case_decide; naive_solver.
  - apply lookup_ge_None in Hobj. apply lookup_lt_Some in H.
    destruct (setLogLevel_fields lvl sel st) as (_ & _ & _ & _ & _ & _ & _ & Hh). lia.
Qed.

(** ** Every instance stays subscribed *)







Section Subscriptions.

Variable levelValue : LogLevel → Z.





End Subscriptions.

(** The constructor of the current revision registers exactly three
    subscriptions for the new instance: its exact key, its group and the
    global scope; group and global overrides then reach every constructed
    instance they concern, and the level they leave in an instance without
    a more specific override is the level the registry resolves for it. *)
Lemma overrides_reach_instances (lvl : LogLevel) (st : State) (this : ref)
    (obj : DefaultLoggerInstance) :
  subscribed st →
  heap st !! this = Some obj →
  heap (setLogLevel lvl (Exact (group obj) (name obj)) st) !! this
    = Some (assignLogLevel obj lvl)
  ∧ heap (setLogLevel lvl (Group (group obj)) st) !! this = Some (assignLogLevel obj lvl)
  ∧ heap (setLogLevel lvl Global st) !! this = Some (assignLogLevel obj lvl)
  ∧ (exactLevels (configuration st) !! (group obj, name obj) = None →
       getLogLevel (configuration (setLogLevel lvl (Group (group obj)) st))
         (group obj) (name obj) = lvl)
  ∧ (exactLevels (configuration st) !! (group obj, name obj) = None →
     groupLevels (configuration st) !! group obj = None →
       getLogLevel (configuration (setLogLevel lvl Global st)) (group obj) (name obj) = lvl).
Proof.
  intros Hs Hobj. destruct (Hs _ _ Hobj) as (He & Hg & Hgl).
  split; [|split; [|split; [|split]]].
  - rewrite (setLogLevel_heap _ _ _ _ _ Hobj). by rewrite decide_True.
  - rewrite (setLogLevel_heap _ _ _ _ _ Hobj). by rewrite decide_True.
  - rewrite (setLogLevel_heap _ _ _ _ _ Hobj). by rewrite decide_True.
  - intros Hne.
    destruct (setLogLevel_fields lvl (Group (group obj)) st) as (_ & _ & _ & _ & _ & -> & _).
    unfold getLogLevel. cbn. by rewrite Hne, lookup_insert_eq.
  - intros Hne Hng.
    destruct (setLogLevel_fields lvl Global st) as (_ & _ & _ & _ & _ & -> & _).
    unfold getLogLevel. cbn. by rewrite Hne, Hng.
Qed.

Lemma newDefaultLoggerInstance_subscriptions n g lvl i st :
  filter (λ entry, entry.2 = AssignLogLevel (length (heap st)))
    (listeners (configuration (newDefaultLoggerInstance n g lvl i st).2))
  = filter (λ entry, entry.2 = AssignLogLevel (length (heap st)))
      (listeners (configuration st))
    ++ [(Exact g n, AssignLogLevel (length (heap st)));
        (Group g, AssignLogLevel (length (heap st)));
        (Global, AssignLogLevel (length (heap st)))].
Proof.
  rewrite newDefaultLoggerInstance_listeners, filter_app. f_equal.
  rewrite !filter_cons. cbn. by rewrite !decide_True.
Qed.


(** ** A process without bindings *)

Lemma loadModule_noBackend : noBackend (loadModule []).
Proof. split; [done|]. split; [done|]. intros this obj H. cbn in H. by rewrite lookup_nil in H. Qed.

Lemma noBackend_same st st' :
  BINDINGS st' = BINDINGS st → LOGGER st' = LOGGER st → heap st' = heap st →
  noBackend st → noBackend st'.
Proof. intros Hb Hl Hh (? & ? & ?). unfold noBackend. rewrite Hb, Hl, Hh. auto. Qed.

Lemma lookupOrCreate_noBackend g n st :
  noBackend st → noBackend (stateOf (lookupOrCreate g n st)).
Proof.
  intros (Hb & Hl & Hh). destruct (LOGGER_INSTANCE_CACHE st !! (g +:+ ":" +:+ n)) as [r|] eqn:H.
  - by rewrite (lookupOrCreate_hit _ _ _ _ H).
  - rewrite (lookupOrCreate_miss _ _ _ H). split; [done|]. split; [done|].
    intros this obj. cbn [stateOf withCACHE heap]. rewrite newDefaultLoggerInstance_heap.
    intros Hobj. apply lookup_app_Some in Hobj as [Hold|[_ Hnew]]; [by eapply Hh|].
    apply list_lookup_singleton_Some in Hnew as [_ <-]. exact Hl.
Qed.

Lemma setLogLevel_noBackend lvl sel st : noBackend st → noBackend (setLogLevel lvl sel st).
Proof.
  intros (Hb & Hl & Hh).
  destruct (setLogLevel_fields lvl sel st) as (Hb' & Hl' & _).
  split; [congruence|]. split; [congruence|]. intros this obj' H.
  destruct (setLogLevel_heap_inv _ _ _ _ _ H) as (obj & Hobj & [->| ->]);
    exact (Hh _ _ Hobj).
Qed.

Lemma callSetMetadata_noBackend this metadata st :
  noBackend st → noBackend (callSetMetadata this metadata st).
Proof.
  intros (Hb & Hl & Hh). unfold callSetMetadata.
  destruct (heap st !! this) as [obj|] eqn:Hobj; [|done].
  split; [done|]. split; [done|]. intros r obj'. cbn [heap withHeap].
  destruct (decide (this = r)) as [->|Hne].
  - rewrite list_lookup_insert_eq by (by eapply lookup_lt_Some). intros [= <-].
    exact (Hh _ _ Hobj).
  - rewrite list_lookup_insert_ne by done. apply Hh.
Qed.

Section NoBinding.

Variable levelValue : LogLevel → Z.
Hypothesis levels_descend : descending levelValue.

Lemma getLogger_noBackend g n st :
  noBackend st → noBackend (stateOf (getLogger levelValue g n st)).
Proof.
  intros Hn. destruct (INITIALIZED st) eqn:Hi.
  - rewrite getLogger_initialized by done. by apply lookupOrCreate_noBackend.
  - rewrite getLogger_no_binding; [|done|apply Hn]. by eapply noBackend_same; [| | |exact Hn].
Qed.

Lemma perform_noBackend op st : noBackend st → noBackend (perform levelValue st op).
Proof.
  intros Hn.
  destruct op as [env|g n|b|lvl sel|this metadata|lvl this message metadata err];
    cbn [perform].
  - done.
  - by apply getLogger_noBackend.
  - by destruct b.
  - by apply setLogLevel_noBackend.
  - by apply callSetMetadata_noBackend.
  - unfold callLeveled. destruct (heap st !! this); cbn [mbind option_bind]; [|done].
    by destruct (leveled _ _ _ _ _ _).
Qed.

Lemma log_unbound this lvl message metadata err :
  impl this = None →
  log levelValue this lvl message metadata err
  = if decide (severity lvl < severity (logLevel this))%nat then NoOp else RejectedTypeError.
Proof.
  intros Hi. case_decide as Hsev.
  - by apply log_below.
  - unfold log. assert (severity (logLevel this) ≤ severity lvl)%nat as Hle by lia.
    apply (guard_true levelValue levels_descend) in Hle. rewrite Hle, Hi.
    by destruct (instanceofError metadata).
Qed.

(** On an instance without implementation, a call at or above the threshold
    is rejected and a call below it is a no-op; neither changes the state. *)
Lemma unbound_call_is_rejected lvl this obj message metadata err st :
  heap st !! this = Some obj →
  impl obj = None →
  callLeveled levelValue lvl this message metadata err st
  = Some (if decide (severity lvl < severity (logLevel obj))%nat
          then NoOp else RejectedTypeError, st).
Proof.
  intros Hobj Hi. unfold callLeveled. rewrite Hobj, leveled_log. cbn [mbind option_bind].
  rewrite (log_unbound _ _ _ _ _ Hi). by case_decide.
Qed.

(** While the factory counts as initialised, the instances [getLogger]
    returns in a process without bindings have no implementation bound. *)
Lemma getLogger_unbound g n st :
  wellFormed st → noBackend st → INITIALIZED st = true →
  ∃ instance st' obj,
    getLogger levelValue g n st = Returned instance st'
    ∧ heap st' !! instance = Some obj ∧ impl obj = None.
Proof.
  intros Hwf Hn Hi.
  destruct (getLogger_returns levelValue g n st (or_introl Hi)) as (instance & st' & Hget).
  pose proof (getLogger_outcome levelValue g n st) as Hout.
  pose proof (getLogger_wellFormed levelValue g n st Hwf) as [_ Hv].
  pose proof (getLogger_noBackend g n st Hn) as (_ & _ & Hh).
  rewrite Hget in Hout, Hv, Hh. cbn [stateOf] in Hv, Hh.
  destruct Hout as (Hcached & _). apply Hv in Hcached.
  apply lookup_lt_is_Some in Hcached as [obj Hobj].
  exists instance, st', obj. split; [done|]. split; [done|]. by eapply Hh.
Qed.

End NoBinding.

(** ** The older revision *)

(** With a [LogLevel] enum that grows with severity, the guard of the older
    revision lets a call through exactly when its level is at or above the
    threshold. *)
Lemma legacy_guard_at_or_above levelValue this lvl :
  ascending levelValue →
  Legacy.guard levelValue this lvl = true
  ↔ (severity (Legacy.logLevel this) ≤ severity lvl)%nat.
Proof. intros Hasc. unfold Legacy.guard. rewrite Z.leb_le. apply Hasc. Qed.

(** The constructor of the older revision registers two subscriptions: the
    exact key and the group. *)
Lemma legacy_constructor_subscriptions n g lvl i st :
  listeners (Legacy.configuration (Legacy.newDefaultLoggerInstance n g lvl i st).2)
  = listeners (Legacy.configuration st)
    ++ [(Exact g n, AssignLogLevel (length (Legacy.heap st)));
        (Group g, AssignLogLevel (length (Legacy.heap st)))].
Proof. cbn. by rewrite <- !app_assoc. Qed.

(** * Concrete runs *)

(** The scenario of the specification: [.warn("x", {a: 1})] on an instance
    at level DEBUG with common metadata [{b: 2}] delivers the metadata
    [{a: 1, b: 2}]. *)
Example warn_merges_metadata :
  warn errorFirst debugInstance "x" (AnObject {[ "a" := JsNum 1 ]}) None
  = Delegated 7 {| recLevel := WARN; recGroup := "svc"; recName := "db";
                   recMessage := "x"; recError := None;
                   recMetadata := {[ "a" := JsNum 1; "b" := JsNum 2 ]} |}.
Proof. vm_compute. reflexivity. Qed.

(** An argument key overrides the same key of the common metadata. *)
Example warn_argument_key_wins :
  warn errorFirst debugInstance "x" (AnObject {[ "b" := JsNum 5 ]}) None
  = Delegated 7 {| recLevel := WARN; recGroup := "svc"; recName := "db";
                   recMessage := "x"; recError := None;
                   recMetadata := {[ "b" := JsNum 5 ]} |}.
Proof. vm_compute. reflexivity. Qed.

Example usedProcess_heap :
  heap usedProcess
  = [ {| impl := Some 7; name := ""; group := "";
         commonMetadata := Undefined; logLevel := INFO |};
      svcDbInstance ].
Proof. vm_compute. reflexivity. Qed.

(** ** The theorems at concrete inputs *)

(** A [debug] call on the INFO-level instance of [usedProcess]. *)
Lemma C1_witness :
  descending errorFirst
  ∧ heap usedProcess !! 1 = Some svcDbInstance
  ∧ impl svcDbInstance = Some 7
  ∧ ∃ c st',
      callLeveled errorFirst DEBUG 1 "x" Undefined None usedProcess = Some (c, st')
      ∧ ((∃ r, c = Delegated 7 r
               ∧ st' = withEmitted (emitted usedProcess ++ [(7, r)]) usedProcess)
           ↔ (severity (logLevel svcDbInstance) ≤ severity DEBUG)%nat)
      ∧ ((severity DEBUG < severity (logLevel svcDbInstance))%nat →
           c = NoOp ∧ st' = usedProcess).
Proof.
  split; [exact errorFirst_descending|].
  split; [vm_compute; reflexivity|]. split; [reflexivity|].
  apply (C1_forwarded_iff_at_or_above_threshold errorFirst errorFirst_descending
           DEBUG 1 svcDbInstance 7 "x" Undefined None usedProcess);
    [vm_compute; reflexivity|reflexivity].
Defined.

(** The scenario of the specification, [.warn("x", {a: 1})]. *)
Lemma C2_witness :
  descending errorFirst
  ∧ impl debugInstance = Some 7
  ∧ (severity (logLevel debugInstance) ≤ severity WARN)%nat
  ∧ ∃ r, leveled errorFirst WARN debugInstance "x" (AnObject {[ "a" := JsNum 1 ]}) None
         = Delegated 7 r
      ∧ recLevel r = WARN ∧ recGroup r = group debugInstance
      ∧ recName r = name debugInstance ∧ recMessage r = "x"
      ∧ recError r = None
      ∧ ∀ key, recMetadata r !! key
               = match spread (AnObject {[ "a" := JsNum 1 ]}) !! key with
                 | Some v => Some v
                 | None => spread (commonMetadata debugInstance) !! key
                 end.
Proof.
  split; [exact errorFirst_descending|]. split; [reflexivity|].
  split; [cbn; lia|].
  apply (C2_error_or_merged_metadata errorFirst errorFirst_descending
           WARN debugInstance 7 "x" (AnObject {[ "a" := JsNum 1 ]}) None);
    [reflexivity|cbn; lia].
Defined.

(** Two [getLogger("svc", "db")] calls around other calls, then [reset()]. *)
Lemma C3_witness :
  wellFormed (loadModule [consoleBinding])
  ∧ (INITIALIZED (loadModule [consoleBinding]) = true
     ∨ BINDINGS (loadModule [consoleBinding]) ≠ [])
  ∧ ∃ instance st1,
      getLogger errorFirst "svc" "db" (loadModule [consoleBinding]) = Returned instance st1
      ∧ getLogger errorFirst "svc" "db"
          (performAll errorFirst [GetLogger "svc" "web"; SetLogLevel DEBUG (Group "svc")] st1)
        = Returned instance
            (performAll errorFirst [GetLogger "svc" "web"; SetLogLevel DEBUG (Group "svc")] st1)
      ∧ ∃ fresh st2 obj,
          getLogger errorFirst "svc" "db" (reset false st1) = Returned fresh st2
          ∧ heap st1 !! fresh = None
          ∧ fresh ≠ instance
          ∧ heap st2 !! fresh = Some obj
          ∧ group obj = "svc" ∧ name obj = "db"
          ∧ logLevel obj = getLogLevel (configuration (reset false st1)) "svc" "db".
Proof.
  split; [apply loadModule_wellFormed|]. split; [by right|].
  destruct (C3_same_instance_until_reset errorFirst "svc" "db" (loadModule [consoleBinding])
              (loadModule_wellFormed _) (or_intror (λ H, nil_cons (eq_sym H))))
    as (instance & st1 & Hget & Hsame & _ & Hreset).
  exists instance, st1. split; [exact Hget|]. split.
  - apply Hsame. reflexivity.
  - apply Hreset. by left.
Defined.

(** The first [getLogger] call of a process without bindings. *)
Lemma C4_witness :
  BINDINGS (loadModule []) = []
  ∧ INITIALIZED (loadModule []) = false
  ∧ ∃ st', getLogger errorFirst "svc" "db" (loadModule [])
           = Thrown "No Logger Binding found" st'
      ∧ heap st' = heap (loadModule [])
      ∧ LOGGER_INSTANCE_CACHE st' = LOGGER_INSTANCE_CACHE (loadModule [])
      ∧ configuration st' = configuration (loadModule [])
      ∧ emitted st' = emitted (loadModule []).
Proof.
  split; [reflexivity|]. split; [reflexivity|].
  apply (C4_no_binding_first_getLogger_fails errorFirst "svc" "db" (loadModule []));
    reflexivity.
Defined.


(** Two bindings and the default level: the diagnostic is emitted. *)
Lemma C8_witness :
  descending errorFirst
  ∧ coldCacheEmpty (loadModule [consoleBinding; winstonBinding])
  ∧ INITIALIZED (loadModule [consoleBinding; winstonBinding]) = false
  ∧ BINDINGS (loadModule [consoleBinding; winstonBinding]) = [consoleBinding; winstonBinding]
  ∧ ∃ instance st',
      getLogger errorFirst "svc" "db" (loadModule [consoleBinding; winstonBinding])
      = Returned instance st'
      ∧ LOGGER st' = Some (getLoggerImplementation consoleBinding)
      ∧ emitted st'
        = [(getLoggerImplementation consoleBinding,
            multipleBindingsRecord [consoleBinding; winstonBinding] consoleBinding)].
Proof.
  split; [exact errorFirst_descending|]. split; [by intros _|].
  split; [reflexivity|]. split; [reflexivity|].
  destruct (C8_multiple_bindings_diagnostic errorFirst "svc" "db"
              (loadModule [consoleBinding; winstonBinding]) consoleBinding winstonBinding []
              errorFirst_descending (λ _, eq_refl) eq_refl eq_refl)
    as (instance & st' & Hget & Hlogger & _ & _ & Hemit & _).
  exists instance, st'. split; [exact Hget|]. split; [exact Hlogger|].
  apply Hemit. vm_compute. lia.
Defined.

(** The pairs ("a:b", "c") and ("a", "b:c"). *)
Lemma C9_witness :
  ("a:b", "c") ≠ ("a", "b:c")
  ∧ "a:b" +:+ ":" +:+ "c" = "a" +:+ ":" +:+ "b:c"
  ∧ coldCacheEmpty (loadModule [consoleBinding])
  ∧ LOGGER_INSTANCE_CACHE (loadModule [consoleBinding]) !! ("a:b" +:+ ":" +:+ "c") = None
  ∧ (INITIALIZED (loadModule [consoleBinding]) = true
     ∨ BINDINGS (loadModule [consoleBinding]) ≠ [])
  ∧ ∃ instance st1 obj,
      getLogger errorFirst "a:b" "c" (loadModule [consoleBinding]) = Returned instance st1
      ∧ getLogger errorFirst "a" "b:c" st1 = Returned instance st1
      ∧ heap st1 !! instance = Some obj
      ∧ group obj = "a:b" ∧ name obj = "c".
Proof.
  split; [intros H; discriminate H|]. split; [reflexivity|].
  split; [by intros _|]. split; [reflexivity|]. split; [by right|].
  apply (C9_colliding_keys_share_instance errorFirst "a:b" "c" "a" "b:c"
           (loadModule [consoleBinding]));
    [reflexivity|by intros _|reflexivity|by right].
Defined.

(** An [error] call whose metadata argument and explicit error argument are
    both Error objects. *)
Lemma C10_witness :
  descending errorFirst
  ∧ impl svcDbInstance = Some 7
  ∧ (severity (logLevel svcDbInstance) ≤ severity ERROR)%nat
  ∧ ∃ r, leveled errorFirst ERROR svcDbInstance "failed"
           (AnError {| errMessage := "in metadata"; errOwn := ∅ |})
           (Some {| errMessage := "explicit"; errOwn := ∅ |})
         = Delegated 7 r
      ∧ recError r = Some {| errMessage := "in metadata"; errOwn := ∅ |}
      ∧ recMetadata r = spread (commonMetadata svcDbInstance)
      ∧ ∀ other : option JsError,
          leveled errorFirst ERROR svcDbInstance "failed"
            (AnError {| errMessage := "in metadata"; errOwn := ∅ |}) other
          = Delegated 7 r.
Proof.
  split; [exact errorFirst_descending|]. split; [reflexivity|]. split; [cbn; lia|].
  apply (C10_explicit_error_discarded errorFirst errorFirst_descending ERROR svcDbInstance 7
           "failed" {| errMessage := "in metadata"; errOwn := ∅ |}
           {| errMessage := "explicit"; errOwn := ∅ |});
    [reflexivity|cbn; lia].
Defined.

(** ** Where the specification and the code part *)

(** C6, as the specification words it, fails: after [reset(true)] the next
    [getLogger] still works on the bindings found when the module was
    loaded, not on those a discovery would find at that moment. *)
Lemma C6_discovery_is_not_rerun :
  visible (reset true movedProcess) = [winstonBinding]
  ∧ BINDINGS (stateOf (getLogger errorFirst "" "" (reset true movedProcess)))
    = [consoleBinding]
  ∧ BINDINGS (stateOf (getLogger errorFirst "" "" (reset true movedProcess)))
    ≠ getBindings (visible (reset true movedProcess))
  ∧ LOGGER (stateOf (getLogger errorFirst "" "" (reset true movedProcess)))
    = Some (getLoggerImplementation consoleBinding).
Proof.
  split; [reflexivity|]. split; [vm_compute; reflexivity|].
  split; [|vm_compute; reflexivity].
  vm_compute. intros H. discriminate H.
Qed.

(** C8, as the specification words it, fails: with two bindings discovered
    and the global level set to WARN beforehand, initialisation selects the
    first binding and emits nothing. *)
Lemma C8_diagnostic_suppressed_by_threshold :
  BINDINGS quietProcess = [consoleBinding; winstonBinding]
  ∧ INITIALIZED quietProcess = false
  ∧ LOGGER (stateOf (getLogger errorFirst "" "" quietProcess))
    = Some (getLoggerImplementation consoleBinding)
  ∧ emitted (stateOf (getLogger errorFirst "" "" quietProcess)) = [].
Proof. repeat split; vm_compute; reflexivity. Qed.

(** * Further properties of the facade *)

(** ** Metadata *)

Lemma callSetMetadata_lookup this metadata st obj :
  heap st !! this = Some obj →
  heap (callSetMetadata this metadata st) !! this = Some (setMetadata obj metadata).
Proof.
  intros Hobj. unfold callSetMetadata. rewrite Hobj. cbn [heap withHeap].
  apply list_lookup_insert_eq. by eapply lookup_lt_Some.
Qed.

Lemma callSetMetadata_other this other metadata st :
  this ≠ other →
  heap (callSetMetadata this metadata st) !! other = heap st !! other.
Proof.
  intros Hne. unfold callSetMetadata. destruct (heap st !! this); [|done].
  cbn [heap withHeap]. by apply list_lookup_insert_ne.
Qed.

Lemma callSetMetadata_none this metadata st :
  heap st !! this = None → callSetMetadata this metadata st = st.
Proof. intros H. unfold callSetMetadata. by rewrite H. Qed.

Lemma callSetMetadata_fields this metadata st :
  BINDINGS (callSetMetadata this metadata st) = BINDINGS st
  ∧ LOGGER (callSetMetadata this metadata st) = LOGGER st
  ∧ INITIALIZED (callSetMetadata this metadata st) = INITIALIZED st
  ∧ LOGGER_INSTANCE_CACHE (callSetMetadata this metadata st) = LOGGER_INSTANCE_CACHE st
  ∧ configuration (callSetMetadata this metadata st) = configuration st
  ∧ emitted (callSetMetadata this metadata st) = emitted st.
Proof. unfold callSetMetadata. by destruct (heap st !! this). Qed.

Section Metadata.

Variable levelValue : LogLevel → Z.
Hypothesis levels_descend : descending levelValue.

(** X1. [setMetadata] replaces the common metadata, it does not merge: after
    two [setMetadata] calls on an instance, a forwarded call with a metadata
    object delivers the second common metadata overwritten by the argument,
    and nothing of the first; the level, group, name and error argument are
    delivered as before. *)
Theorem X1_setMetadata_replaces
    (lvl : LogLevel) (this : ref) (obj : DefaultLoggerInstance) (i : LoggerImplementation)
    (message : string) (first second metadata : Any) (err : option JsError) (st : State) :
  heap st !! this = Some obj →
  impl obj = Some i →
  (severity (logLevel obj) ≤ severity lvl)%nat →
  instanceofError metadata = None →
  ∃ st',
    callLeveled levelValue lvl this message metadata err
      (callSetMetadata this second (callSetMetadata this first st))
    = Some (Delegated i {| recLevel := lvl; recGroup := group obj; recName := name obj;
                           recMessage := message; recError := err;
                           recMetadata := spread metadata ∪ spread second |}, st')
    ∧ emitted st'
      = emitted st ++ [(i, {| recLevel := lvl; recGroup := group obj; recName := name obj;
                              recMessage := message; recError := err;
                              recMetadata := spread metadata ∪ spread second |})].
Proof.
  intros Hobj Hi Hsev Hplain.
  pose proof (callSetMetadata_lookup this first st obj Hobj) as H1.
  pose proof (callSetMetadata_lookup this second _ _ H1) as H2.
  unfold callLeveled. rewrite H2, leveled_log. cbn [mbind option_bind].
  rewrite (log_plain_metadata levelValue levels_descend _ i) by done.
  eexists. split; [reflexivity|]. cbn [deliver withEmitted emitted].
  destruct (callSetMetadata_fields this second (callSetMetadata this first st))
    as (_ & _ & _ & _ & _ & ->).
  destruct (callSetMetadata_fields this first st) as (_ & _ & _ & _ & _ & ->).
  done.
Qed.

End Metadata.

Section Sharing.

Variable levelValue : LogLevel → Z.

(** X2. The instance behind a cached reference is shared: metadata set
    through the reference that one [getLogger] call returned is the common
    metadata of the instance that the next [getLogger] call for the same
    group and name returns, which is the same reference; instances behind
    other references keep theirs. *)
Theorem X2_metadata_is_shared_by_all_holders
    (g n : string) (metadata : Any) (st : State) :
  wellFormed st →
  INITIALIZED st = true ∨ BINDINGS st ≠ [] →
  ∃ instance st1 obj,
    getLogger levelValue g n st = Returned instance st1
    ∧ heap st1 !! instance = Some obj
    ∧ getLogger levelValue g n (callSetMetadata instance metadata st1)
      = Returned instance (callSetMetadata instance metadata st1)
    ∧ heap (callSetMetadata instance metadata st1) !! instance
      = Some (setMetadata obj metadata)
    ∧ ∀ other, other ≠ instance →
        heap (callSetMetadata instance metadata st1) !! other = heap st1 !! other.
Proof.
  intros Hwf Hok.
  destruct (getLogger_returns levelValue g n st Hok) as (instance & st1 & Hget).
  pose proof (getLogger_outcome levelValue g n st) as Hout.
  pose proof (getLogger_wellFormed levelValue g n st Hwf) as [_ Hv].
  rewrite Hget in Hout, Hv. cbn [stateOf] in Hv.
  destruct Hout as (Hcached & _ & Hinit & _).
  destruct (lookup_lt_is_Some_2 _ _ (Hv _ _ Hcached)) as [obj Hobj].
  exists instance, st1, obj. split; [done|]. split; [done|].
  destruct (callSetMetadata_fields instance metadata st1) as (_ & _ & Hi & Hc & _).
  split; [|split].
  - rewrite getLogger_initialized by congruence. apply lookupOrCreate_hit. by rewrite Hc.
  - by apply callSetMetadata_lookup.
  - intros other Hne. by apply callSetMetadata_other.
Qed.

End Sharing.

(** ** The cache *)

Lemma compoundKey_root_iff g n : g +:+ ":" +:+ n = ":" ↔ g = "" ∧ n = "".
Proof. split; [apply compoundKey_root|]. by intros [-> ->]. Qed.

Lemma loadModule_cacheInjective environment : cacheInjective (loadModule environment).
Proof. intros key1 key2 r H. cbn in H. by rewrite lookup_empty in H. Qed.

Lemma reset_cacheInjective b st : cacheInjective (reset b st).
Proof. intros key1 key2 r H. destruct b; cbn in H; by rewrite lookup_empty in H. Qed.

Lemma cacheInjective_same st st' :
  LOGGER_INSTANCE_CACHE st' = LOGGER_INSTANCE_CACHE st →
  cacheInjective st → cacheInjective st'.
Proof. intros Hc Hinj key1 key2 r. rewrite Hc. apply Hinj. Qed.

Lemma lookupOrCreate_cacheInjective g n st :
  cacheValid st → cacheInjective st → cacheInjective (stateOf (lookupOrCreate g n st)).
Proof.
  intros Hv Hinj. destruct (LOGGER_INSTANCE_CACHE st !! (g +:+ ":" +:+ n)) as [r|] eqn:H.
  - by rewrite (lookupOrCreate_hit _ _ _ _ H).
  - rewrite (lookupOrCreate_miss _ _ _ H). intros key1 key2 r. cbn.
    rewrite !lookup_insert. repeat case_decide; subst.
    + done.
    + intros [= <-] Hk. apply Hv in Hk. lia.
    + intros Hk [= <-]. apply Hv in Hk. lia.
    + apply Hinj.
Qed.

Section CacheInjective.

Variable levelValue : LogLevel → Z.

Lemma afterInitialize_cacheInjective binding st :
  cacheValid st → cacheInjective st →
  cacheInjective (afterInitialize levelValue binding st).
Proof.
  intros Hv Hinj. unfold afterInitialize. set (st1 := withLOGGER _ _).
  assert (cacheInjective (stateOf (lookupOrCreate "" "" st1))) as Hinj1.
  { apply lookupOrCreate_cacheInjective.
    - by eapply cacheValid_same; [| |exact Hv].
    - by eapply cacheInjective_same; [|exact Hinj]. }
  destruct (lookupOrCreate "" "" st1) as [root st2|e st2]; cbn [stateOf] in Hinj1; [|done].
  destruct (1 <? length _); [|done].
  unfold callLog. destruct (heap _ !! root); cbn [mbind option_bind]; [|done].
  eapply cacheInjective_same; [|exact Hinj1]. by destruct (log _ _ _ _ _ _).
Qed.

Lemma getLogger_cacheInjective g n st :
  cacheValid st → cacheInjective st →
  cacheInjective (stateOf (getLogger levelValue g n st)).
Proof.
  intros Hv Hinj. destruct (INITIALIZED st) eqn:Hi.
  - rewrite getLogger_initialized by done. by apply lookupOrCreate_cacheInjective.
  - destruct (BINDINGS st) as [|binding bindings] eqn:Hb.
    + rewrite getLogger_no_binding by done. by eapply cacheInjective_same; [|exact Hinj].
    + rewrite (getLogger_first _ _ _ _ _ _ Hi Hb).
      apply lookupOrCreate_cacheInjective.
      * by apply afterInitialize_cacheValid.
      * by apply afterInitialize_cacheInjective.
Qed.

Lemma perform_cacheInjective op st :
  wellFormed st → cacheInjective st → cacheInjective (perform levelValue st op).
Proof.
  intros [_ Hv] Hinj.
  destruct op as [env|g n|b|lvl sel|this metadata|lvl this message metadata err];
    cbn [perform].
  - done.
  - by apply getLogger_cacheInjective.
  - apply reset_cacheInjective.
  - eapply cacheInjective_same; [|exact Hinj].
    by destruct (setLogLevel_fields lvl sel st) as (_ & _ & _ & _ & -> & _).
  - eapply cacheInjective_same; [|exact Hinj].
    by destruct (callSetMetadata_fields this metadata st) as (_ & _ & _ & -> & _).
  - unfold callLeveled. destruct (heap st !! this); cbn [mbind option_bind]; [|done].
    by destruct (leveled _ _ _ _ _ _).
Qed.

Lemma performAll_cacheInjective ops st :
  wellFormed st → cacheInjective st → cacheInjective (performAll levelValue ops st).
Proof.
  revert st. induction ops as [|op ops IH]; intros st Hwf Hinj; [done|].
  unfold performAll. cbn [foldl]. apply IH.
  - by apply perform_wellFormed.
  - by apply perform_cacheInjective.
Qed.

(** X3. In every state a program reaches from a freshly loaded module, two
    [getLogger] calls whose compound keys [group + ":" + name] differ return
    different instances: the cache never maps two keys to one instance. *)
Theorem X3_distinct_keys_get_distinct_instances
    (environment : list LoggerBinding) (ops : list Operation) (g1 n1 g2 n2 : string) :
  INITIALIZED (performAll levelValue ops (loadModule environment)) = true
  ∨ BINDINGS (performAll levelValue ops (loadModule environment)) ≠ [] →
  g1 +:+ ":" +:+ n1 ≠ g2 +:+ ":" +:+ n2 →
  ∃ r1 st1 r2 st2,
    getLogger levelValue g1 n1 (performAll levelValue ops (loadModule environment))
    = Returned r1 st1
    ∧ getLogger levelValue g2 n2 st1 = Returned r2 st2
    ∧ r1 ≠ r2.
Proof.
  set (st := performAll levelValue ops (loadModule environment)).
  intros Hok Hkeys.
  assert (wellFormed st) as Hwf by apply reachable_wellFormed.
  assert (cacheInjective st) as Hinj
    by (apply performAll_cacheInjective;
        [apply loadModule_wellFormed|apply loadModule_cacheInjective]).
  destruct (getLogger_returns levelValue g1 n1 st Hok) as (r1 & st1 & Hget1).
  pose proof (getLogger_outcome levelValue g1 n1 st) as Hout1.
  pose proof (getLogger_wellFormed levelValue g1 n1 st Hwf) as Hwf1.
  pose proof (getLogger_cacheInjective g1 n1 st (proj2 Hwf) Hinj) as Hinj1.
  rewrite Hget1 in Hout1, Hwf1, Hinj1. cbn [stateOf] in Hwf1, Hinj1.
  destruct Hout1 as (Hc1 & _ & Hi1 & _).
  destruct (getLogger_returns levelValue g2 n2 st1 (or_introl Hi1)) as (r2 & st2 & Hget2).
  pose proof (getLogger_outcome levelValue g2 n2 st1) as Hout2.
  pose proof (getLogger_cacheInjective g2 n2 st1 (proj2 Hwf1) Hinj1) as Hinj2.
  rewrite Hget2 in Hout2, Hinj2. cbn [stateOf] in Hinj2.
  destruct Hout2 as (Hc2 & (_ & Hkeep & _) & _).
  exists r1, st1, r2, st2. split; [done|]. split; [done|].
  intros <-. apply Hkeys. eapply Hinj2; [by apply Hkeep|exact Hc2].
Qed.

(** X4. [getLogger] fails exactly when the factory is uninitialised and no
    binding was discovered; the error is then "No Logger Binding found" and
    the call changes nothing but the initialisation flag. In every other
    state it returns an instance that is cached under the requested key. *)
Theorem X4_getLogger_fails_iff_uninitialised_without_binding (g n : string) (st : State) :
  ((∃ e st', getLogger levelValue g n st = Thrown e st')
     ↔ INITIALIZED st = false ∧ BINDINGS st = [])
  ∧ (∀ e st', getLogger levelValue g n st = Thrown e st' →
       e = "No Logger Binding found" ∧ st' = withINITIALIZED true st)
  ∧ (∀ instance st', getLogger levelValue g n st = Returned instance st' →
       LOGGER_INSTANCE_CACHE st' !! (g +:+ ":" +:+ n) = Some instance
       ∧ INITIALIZED st' = true).
Proof.
  pose proof (getLogger_outcome levelValue g n st) as Hout.
  split; [split|split].
  - intros (e & st' & Hget). rewrite Hget in Hout. by destruct Hout as (_ & ? & ? & _).
  - intros [Hi Hb]. eexists _, _. by apply getLogger_no_binding.
  - intros e st' Hget. rewrite Hget in Hout. by destruct Hout as (? & _ & _ & ?).
  - intros instance st' Hget. rewrite Hget in Hout. by destruct Hout as (? & _ & ? & _).
Qed.

End CacheInjective.

(** ** Initialisation *)

Section FirstUse.

Variable levelValue : LogLevel → Z.

(** X5. With exactly one binding discovered, the initialisation run by the
    first [getLogger] call selects it and delivers nothing to it, whatever
    levels are configured: the diagnostic is built for several bindings
    only. *)
Theorem X5_single_binding_emits_no_diagnostic
    (g n : string) (st : State) (binding : LoggerBinding) :
  coldCacheEmpty st →
  INITIALIZED st = false →
  BINDINGS st = [binding] →
  ∃ instance st',
    getLogger levelValue g n st = Returned instance st'
    ∧ LOGGER st' = Some (getLoggerImplementation binding)
    ∧ emitted st' = emitted st.
Proof.
  intros Hcold Hi Hb.
  destruct (getLogger_initialises levelValue g n st binding [] Hcold Hi Hb)
    as (instance & st' & Hget & _ & _ & Hlogger & _ & _ & Hemit).
  exists instance, st'. split; [done|]. split; [done|].
  rewrite Hb in Hemit. cbn [length Nat.ltb Nat.leb andb] in Hemit.
  by rewrite Hemit, app_nil_r.
Qed.

(** X6. The first [getLogger] call of a process with a binding constructs
    the root logger before it looks up the requested one: a request for the
    empty group and name constructs one instance and returns the root
    logger itself; any other request constructs two, and the requested
    instance is the second. Afterwards [getLogger("", "")] returns the root
    logger without constructing anything. *)
Theorem X6_first_call_constructs_the_root_logger
    (g n : string) (st : State) (binding : LoggerBinding) (bindings : list LoggerBinding) :
  coldCacheEmpty st →
  INITIALIZED st = false →
  BINDINGS st = binding :: bindings →
  ∃ instance st',
    getLogger levelValue g n st = Returned instance st'
    ∧ ROOT_LOGGER st' = Some (length (heap st))
    ∧ getLogger levelValue "" "" st' = Returned (length (heap st)) st'
    ∧ (g = "" ∧ n = "" →
         instance = length (heap st) ∧ length (heap st') = S (length (heap st)))
    ∧ (¬ (g = "" ∧ n = "") →
         instance = S (length (heap st)) ∧ length (heap st') = S (S (length (heap st)))).
Proof.
  intros Hcold Hi Hb. rewrite (getLogger_first _ _ _ _ _ _ Hi Hb).
  assert (LOGGER_INSTANCE_CACHE st !! ":" = None) as Hroot
    by (rewrite (Hcold Hi); apply lookup_empty).
  pose proof (afterInitialize_cold levelValue binding st Hroot) as Hinit. cbn zeta in Hinit.
  destruct Hinit as (_ & Hi1 & _ & Hrootl & Hcache & Hheap & _).
  set (st1 := afterInitialize levelValue binding st) in *.
  rewrite (Hcold Hi) in Hcache.
  destruct (decide (g +:+ ":" +:+ n = ":")) as [Hkey|Hkey].
  - assert (LOGGER_INSTANCE_CACHE st1 !! (g +:+ ":" +:+ n) = Some (length (heap st)))
      as Hhit by (by rewrite Hkey, Hcache, lookup_insert_eq).
    rewrite (lookupOrCreate_hit _ _ _ _ Hhit).
    exists (length (heap st)), st1. split; [done|]. split; [done|]. split; [|split].
    + rewrite getLogger_initialized by done. apply lookupOrCreate_hit.
      by rewrite Hcache, lookup_insert_eq.
    + intros _. split; [done|]. rewrite Hheap, length_app. cbn. lia.
    + intros Hne. by apply compoundKey_root_iff in Hkey.
  - assert (LOGGER_INSTANCE_CACHE st1 !! (g +:+ ":" +:+ n) = None) as Hmiss.
    { rewrite Hcache, lookup_insert_ne by done. apply lookup_empty. }
    destruct (lookupOrCreate_constructs g n st1 Hmiss) as (st' & Hl & Hh).
    destruct (lookupOrCreate_returns g n st1)
      as (r & st'' & Hl' & _ & Hkeep & _ & Hi' & _ & Hroot' & _).
    rewrite Hl in Hl'. injection Hl' as <- <-.
    exists (length (heap st1)), st'. split; [done|]. split; [congruence|]. split; [|split].
    + rewrite getLogger_initialized by congruence. apply lookupOrCreate_hit.
      apply Hkeep. by rewrite Hcache, lookup_insert_eq.
    + intros Hboth. by apply compoundKey_root_iff in Hboth.
    + intros _. rewrite Hh, Hheap, !length_app. cbn. split; lia.
Qed.

End FirstUse.

(** ** Delivery *)

Section Delivery.

Variable levelValue : LogLevel → Z.
Hypothesis levels_descend : descending levelValue.

(** X7. In a process without bindings whose first [getLogger] call has
    failed, every later [getLogger] call returns an instance that holds no
    implementation; on it a call at or above the threshold is rejected, a
    call below the threshold is a no-op, and in both cases nothing is
    delivered and nothing changes. *)
Theorem X7_instances_after_failed_initialisation_reject
    (g n : string) (lvl : LogLevel) (message : string) (metadata : Any)
    (err : option JsError) (st : State) :
  wellFormed st →
  noBackend st →
  INITIALIZED st = true →
  ∃ instance st' obj,
    getLogger levelValue g n st = Returned instance st'
    ∧ heap st' !! instance = Some obj
    ∧ Instance.getImpl obj = None
    ∧ callLeveled levelValue lvl instance message metadata err st'
      = Some (if decide (severity lvl < severity (logLevel obj))%nat
              then NoOp else RejectedTypeError, st').
Proof.
  intros Hwf Hn Hi.
  destruct (getLogger_unbound levelValue g n st Hwf Hn Hi)
    as (instance & st' & obj & Hget & Hobj & Himpl).
  exists instance, st', obj. split; [done|]. split; [done|]. split; [done|].
  by apply unbound_call_is_rejected.
Qed.

(** X9. From [getLogger] to the implementation: the first [getLogger] call
    of a process with a binding returns an instance on which a call at or
    above the level resolved for the requested group and name, with a
    metadata object or none, delivers to the implementation of the first
    binding one record carrying the call's level, the requested group and
    name, the message, the explicit error and the properties of the metadata
    argument alone, a new instance having no common metadata. *)
Theorem X9_new_instance_delivers_to_first_binding
    (g n : string) (lvl : LogLevel) (message : string) (metadata : Any)
    (err : option JsError) (st : State)
    (binding : LoggerBinding) (bindings : list LoggerBinding) :
  coldCacheEmpty st →
  INITIALIZED st = false →
  BINDINGS st = binding :: bindings →
  (severity (getLogLevel (configuration st) g n) ≤ severity lvl)%nat →
  instanceofError metadata = None →
  ∃ instance st1 st2,
    getLogger levelValue g n st = Returned instance st1
    ∧ callLeveled levelValue lvl instance message metadata err st1
      = Some (Delegated (getLoggerImplementation binding)
                {| recLevel := lvl; recGroup := g; recName := n; recMessage := message;
                   recError := err; recMetadata := spread metadata |}, st2)
    ∧ emitted st2
      = emitted st1 ++ [(getLoggerImplementation binding,
                         {| recLevel := lvl; recGroup := g; recName := n;
                            recMessage := message; recError := err;
                            recMetadata := spread metadata |})].
Proof.
  intros Hcold Hi Hb Hsev Hplain.
  assert (LOGGER_INSTANCE_CACHE st !! (g +:+ ":" +:+ n) = None) as Hmiss
    by (rewrite (Hcold Hi); apply lookup_empty).
  assert (INITIALIZED st = true ∨ BINDINGS st ≠ []) as Hok by (right; by rewrite Hb).
  destruct (getLogger_constructs levelValue g n st Hcold Hmiss Hok)
    as (instance & st1 & obj & Hget & _ & Hobj & Hg & Hn & Hlvl & Hcm & Himpl).
  rewrite Hi, Hb in Himpl. cbn in Himpl.
  exists instance, st1. eexists. split; [done|].
  unfold callLeveled. rewrite Hobj, leveled_log. cbn [mbind option_bind].
  rewrite (log_plain_metadata levelValue levels_descend obj (getLoggerImplementation binding))
    by (try done; by rewrite Hlvl).
  unfold spread2. rewrite Hcm, Hg, Hn. cbn [spread]. rewrite (right_id_L ∅ (∪)).
  split; reflexivity.
Qed.

End Delivery.

Section Emission.

Variable levelValue : LogLevel → Z.

Local Ltac no_record :=
  exists []; cbn; rewrite ?app_nil_r; split; [done|split; [lia|done]].

Lemma afterInitialize_emitted binding st :
  ∃ new, emitted (afterInitialize levelValue binding st) = emitted st ++ new
    ∧ length new ≤ 1
    ∧ (new ≠ [] → 1 < length (BINDINGS st)).
Proof.
  unfold afterInitialize. set (st1 := withLOGGER _ _).
  destruct (lookupOrCreate_returns "" "" st1)
    as (root & st2 & -> & _ & _ & Hb & _ & _ & _ & He).
  assert (emitted st2 = emitted st) as He2 by exact He.
  assert (BINDINGS (withROOT_LOGGER (Some root) st2) = BINDINGS st) as Hb2 by exact Hb.
  rewrite Hb2. clear He Hb Hb2.
  destruct (1 <? length (BINDINGS st)) eqn:Hmany.
  - apply Nat.ltb_lt in Hmany. unfold callLog.
    destruct (heap (withROOT_LOGGER (Some root) st2) !! root) as [obj|];
      cbn [mbind option_bind].
    + destruct (log levelValue obj INFO _ Undefined None) as [|i r|].
      * no_record.
      * exists [(i, r)]. cbn. rewrite He2. split; [done|split; [lia|done]].
      * no_record.
    + no_record.
  - no_record.
Qed.

Lemma getLogger_emitted g n st :
  ∃ new, emitted (stateOf (getLogger levelValue g n st)) = emitted st ++ new
    ∧ length new ≤ 1
    ∧ (new ≠ [] → INITIALIZED st = false ∧ 1 < length (BINDINGS st)).
Proof.
  destruct (INITIALIZED st) eqn:Hi.
  - rewrite (getLogger_initialized_emitted levelValue g n st Hi).
    no_record.
  - destruct (BINDINGS st) as [|binding bindings] eqn:Hb.
    + rewrite getLogger_no_binding by done. no_record.
    + rewrite (getLogger_first _ _ _ _ _ _ Hi Hb).
      destruct (afterInitialize_emitted binding st) as (new & He & Hlen & Hmany).
      destruct (lookupOrCreate_returns g n (afterInitialize levelValue binding st))
        as (r & st' & -> & _ & _ & _ & _ & _ & _ & He').
      cbn [stateOf]. rewrite He', He. exists new. rewrite Hb in Hmany.
      split; [done|split; [done|auto]].
Qed.

(** X10. The calls delivered to implementations only accumulate: every
    operation keeps the records delivered so far, in order, and adds at most
    one; a record is added only by a log call, or by a [getLogger] call that
    initialises the factory when several bindings were discovered. *)
Theorem X10_delivered_records_only_accumulate (op : Operation) (st : State) :
  ∃ new,
    emitted (perform levelValue st op) = emitted st ++ new
    ∧ length new ≤ 1
    ∧ (new ≠ [] →
         isReset op = false
         ∧ match op with
           | Log _ _ _ _ _ => True
           | GetLogger _ _ => INITIALIZED st = false ∧ 1 < length (BINDINGS st)
           | _ => False
           end).
Proof.
  destruct op as [env|g n|b|lvl sel|this metadata|lvl this message metadata err];
    cbn [perform isReset].
  - no_record.
  - destruct (getLogger_emitted g n st) as (new & He & Hlen & Hwhy).
    exists new. split; [done|split; [done|auto]].
  - destruct b; no_record.
  - destruct (setLogLevel_fields lvl sel st) as (_ & _ & _ & _ & _ & _ & -> & _).
    no_record.
  - destruct (callSetMetadata_fields this metadata st) as (_ & _ & _ & _ & _ & ->).
    no_record.
  - unfold callLeveled. destruct (heap st !! this); cbn [mbind option_bind].
    + destruct (leveled _ _ _ _ _ _) as [|i r|]; cbn [deliver withEmitted emitted].
      * no_record.
      * exists [(i, r)]. cbn. split; [done|split; [lia|done]].
      * no_record.
    + no_record.
Qed.

End Emission.

(** ** What never changes in an instance *)

Section Frame.

Variable levelValue : LogLevel → Z.

Lemma afterInitialize_heap binding st :
  ∃ tail, heap (afterInitialize levelValue binding st) = heap st ++ tail.
Proof.
  unfold afterInitialize. set (st1 := withLOGGER _ _).
  destruct (lookupOrCreate_heap "" "" st1) as [tail Htail].
  destruct (lookupOrCreate "" "" st1) as [root st2|e st2]; cbn [stateOf] in Htail;
    [|by exists tail].
  exists tail. destruct (1 <? length _); [|exact Htail].
  unfold callLog. destruct (heap _ !! root); cbn [mbind option_bind]; [|exact Htail].
  by destruct (log _ _ _ _ _ _).
Qed.

Lemma getLogger_heap g n st :
  ∃ tail, heap (stateOf (getLogger levelValue g n st)) = heap st ++ tail.
Proof.
  destruct (INITIALIZED st) eqn:Hi.
  - rewrite getLogger_initialized by done. apply lookupOrCreate_heap.
  - destruct (BINDINGS st) as [|binding bindings] eqn:Hb.
    + rewrite getLogger_no_binding by done. exists []. cbn. by rewrite app_nil_r.
    + rewrite (getLogger_first _ _ _ _ _ _ Hi Hb).
      destruct (afterInitialize_heap binding st) as [tail1 H1].
      destruct (lookupOrCreate_heap g n (afterInitialize levelValue binding st))
        as [tail2 H2].
      exists (tail1 ++ tail2). by rewrite H2, H1, app_assoc.
Qed.

(** X11. An instance, once constructed, is never removed and never changes
    its group, name or implementation, whatever is called, [reset]
    included. Its level is changed by [setLogLevel] only and its common
    metadata by [setMetadata] on that very instance only. *)
Theorem X11_instances_persist_with_their_identity
    (op : Operation) (st : State) (this : ref) (obj : DefaultLoggerInstance) :
  heap st !! this = Some obj →
  ∃ obj',
    heap (perform levelValue st op) !! this = Some obj'
    ∧ Instance.getGroup obj' = Instance.getGroup obj
    ∧ Instance.getName obj' = Instance.getName obj
    ∧ Instance.getImpl obj' = Instance.getImpl obj
    ∧ ((∀ lvl sel, op ≠ SetLogLevel lvl sel) →
         Instance.getLogLevel obj' = Instance.getLogLevel obj)
    ∧ ((∀ metadata, op ≠ SetMetadata this metadata) →
         commonMetadata obj' = commonMetadata obj).
Proof.
  intros Hobj.
  destruct op as [env|g n|b|lvl sel|r metadata|lvl r message metadata err];
    cbn [perform].
  - by exists obj.
  - destruct (getLogger_heap g n st) as [tail ->]. exists obj.
    by rewrite (lookup_app_l_Some _ _ _ _ Hobj).
  - exists obj. by destruct b.
  - rewrite (setLogLevel_heap _ _ _ _ _ Hobj).
    case_decide; eexists; (split; [reflexivity|]); repeat split; try done.
    intros Hop. by destruct (Hop lvl sel).
  - destruct (decide (r = this)) as [->|Hne].
    + rewrite (callSetMetadata_lookup _ _ _ _ Hobj). eexists. split; [reflexivity|].
      repeat split; try done. intros Hop. by destruct (Hop metadata).
    + rewrite (callSetMetadata_other _ _ _ _ Hne). by exists obj.
  - exists obj. unfold callLeveled. destruct (heap st !! r); cbn [mbind option_bind]; [|done].
    by destruct (leveled _ _ _ _ _ _).
Qed.

End Frame.

(** ** The registry holds three callbacks per instance *)

Lemma subscriptionsFrom_app this objs obj :
  subscriptionsFrom this (objs ++ [obj])
  = subscriptionsFrom this objs
    ++ [(Exact (group obj) (name obj), AssignLogLevel (this + length objs));
        (Group (group obj), AssignLogLevel (this + length objs));
        (Global, AssignLogLevel (this + length objs))].
Proof.
  revert this. induction objs as [|o objs IH]; intros this; cbn.
  - by rewrite Nat.add_0_r.
  - rewrite IH. by replace (S this + length objs) with (this + S (length objs)) by lia.
Qed.

Lemma subscriptionsFrom_ext this objs objs' :
  length objs = length objs' →
  (∀ i o o', objs !! i = Some o → objs' !! i = Some o' →
     group o = group o' ∧ name o = name o') →
  subscriptionsFrom this objs = subscriptionsFrom this objs'.
Proof.
  revert this objs'. induction objs as [|o objs IH]; intros this [|o' objs'] Hlen Hsame;
    try discriminate; [done|].
  cbn. destruct (Hsame 0 o o' eq_refl eq_refl) as [-> ->].
  rewrite (IH (S this) objs'); [done|by injection Hlen|].
  intros i a a' Ha Ha'. by apply (Hsame (S i)).
Qed.

Lemma subscriptionsFrom_length this objs :
  length (subscriptionsFrom this objs) = 3 * length objs.
Proof.
  revert this. induction objs as [|o objs IH]; intros this; [done|].
  cbn [subscriptionsFrom length]. rewrite IH. lia.
Qed.

Lemma loadModule_registryMatchesStore environment :
  registryMatchesStore (loadModule environment).
Proof. reflexivity. Qed.

Lemma registryMatchesStore_same st st' :
  configuration st' = configuration st → heap st' = heap st →
  registryMatchesStore st → registryMatchesStore st'.
Proof. unfold registryMatchesStore. by intros -> ->. Qed.

Lemma lookupOrCreate_registryMatchesStore g n st :
  registryMatchesStore st → registryMatchesStore (stateOf (lookupOrCreate g n st)).
Proof.
  intros Hm. destruct (LOGGER_INSTANCE_CACHE st !! (g +:+ ":" +:+ n)) as [r|] eqn:H.
  - by rewrite (lookupOrCreate_hit _ _ _ _ H).
  - rewrite (lookupOrCreate_miss _ _ _ H). unfold registryMatchesStore.
    cbn [stateOf withCACHE heap configuration].
    rewrite newDefaultLoggerInstance_heap, newDefaultLoggerInstance_listeners.
    by rewrite subscriptionsFrom_app, Hm.
Qed.

Lemma setLogLevel_registryMatchesStore lvl sel st :
  registryMatchesStore st → registryMatchesStore (setLogLevel lvl sel st).
Proof.
  unfold registryMatchesStore. intros Hm.
  destruct (setLogLevel_fields lvl sel st) as (_ & _ & _ & _ & _ & -> & _ & Hlen).
  rewrite applyOverride_listeners, Hm. apply subscriptionsFrom_ext; [done|].
  intros i o o' Ho Ho'. rewrite (setLogLevel_heap _ _ _ _ _ Ho) in Ho'.
  injection Ho' as <-. by case_decide.
Qed.

Lemma callSetMetadata_registryMatchesStore this metadata st :
  registryMatchesStore st → registryMatchesStore (callSetMetadata this metadata st).
Proof.
  unfold registryMatchesStore. intros Hm.
  destruct (callSetMetadata_fields this metadata st) as (_ & _ & _ & _ & -> & _).
  rewrite Hm. apply subscriptionsFrom_ext.
  - unfold callSetMetadata. destruct (heap st !! this); [|done]. cbn.
    by rewrite length_insert.
  - intros i o o' Ho Ho'. destruct (decide (this = i)) as [->|Hne].
    + rewrite (callSetMetadata_lookup _ _ _ _ Ho) in Ho'. by injection Ho' as <-.
    + rewrite (callSetMetadata_other _ _ _ _ Hne) in Ho'.
      assert (Some o = Some o') as [= <-] by (rewrite <- Ho; exact Ho'). by split.
Qed.

Section Registry.

Variable levelValue : LogLevel → Z.

Lemma afterInitialize_registryMatchesStore binding st :
  registryMatchesStore st → registryMatchesStore (afterInitialize levelValue binding st).
Proof.
  intros Hm. unfold afterInitialize. set (st1 := withLOGGER _ _).
  assert (registryMatchesStore st1) as Hm1 by exact Hm.
  apply (lookupOrCreate_registryMatchesStore "" "") in Hm1.
  destruct (lookupOrCreate "" "" st1) as [root st2|e st2]; cbn [stateOf] in Hm1; [|done].
  destruct (1 <? length _); [|exact Hm1].
  unfold callLog. destruct (heap _ !! root); cbn [mbind option_bind]; [|exact Hm1].
  eapply registryMatchesStore_same; [| |exact Hm1]; by destruct (log _ _ _ _ _ _).
Qed.

Lemma getLogger_registryMatchesStore g n st :
  registryMatchesStore st → registryMatchesStore (stateOf (getLogger levelValue g n st)).
Proof.
  intros Hm. destruct (INITIALIZED st) eqn:Hi.
  - rewrite getLogger_initialized by done. by apply lookupOrCreate_registryMatchesStore.
  - destruct (BINDINGS st) as [|binding bindings] eqn:Hb.
    + by rewrite getLogger_no_binding.
    + rewrite (getLogger_first _ _ _ _ _ _ Hi Hb).
      by apply lookupOrCreate_registryMatchesStore, afterInitialize_registryMatchesStore.
Qed.

Lemma perform_registryMatchesStore op st :
  registryMatchesStore st → registryMatchesStore (perform levelValue st op).
Proof.
  intros Hm.
  destruct op as [env|g n|b|lvl sel|this metadata|lvl this message metadata err];
    cbn [perform].
  - done.
  - by apply getLogger_registryMatchesStore.
  - by destruct b.
  - by apply setLogLevel_registryMatchesStore.
  - by apply callSetMetadata_registryMatchesStore.
  - unfold callLeveled. destruct (heap st !! this); cbn [mbind option_bind]; [|done].
    by destruct (leveled _ _ _ _ _ _).
Qed.

Lemma reachable_registryMatchesStore environment ops :
  registryMatchesStore (performAll levelValue ops (loadModule environment)).
Proof.
  unfold performAll. generalize (loadModule_registryMatchesStore environment).
  generalize (loadModule environment) as st.
  induction ops as [|op ops IH]; intros st Hm; [done|].
  cbn [foldl]. by apply IH, perform_registryMatchesStore.
Qed.

(** X12. In every state a program reaches from a freshly loaded module, the
    callbacks the facade has registered are exactly three for each instance
    ever constructed, for its exact key, its group and the global scope, in
    construction order: a cache hit registers nothing, and [reset] removes
    nothing, so the callbacks of instances dropped from the cache stay
    registered. *)
Theorem X12_three_callbacks_per_constructed_instance
    (environment : list LoggerBinding) (ops : list Operation) :
  listeners (configuration (performAll levelValue ops (loadModule environment)))
  = subscriptionsFrom 0 (heap (performAll levelValue ops (loadModule environment)))
  ∧ length (listeners (configuration (performAll levelValue ops (loadModule environment))))
    = 3 * length (heap (performAll levelValue ops (loadModule environment))).
Proof.
  pose proof (reachable_registryMatchesStore environment ops) as Hm.
  split; [exact Hm|]. rewrite Hm. apply subscriptionsFrom_length.
Qed.

End Registry.

(** ** What the cache returns *)

Lemma cacheKeysMatch_transfer st st' :
  LOGGER_INSTANCE_CACHE st' = LOGGER_INSTANCE_CACHE st →
  (∀ r obj', heap st' !! r = Some obj' →
     ∃ obj, heap st !! r = Some obj ∧ group obj = group obj' ∧ name obj = name obj') →
  cacheKeysMatch st → cacheKeysMatch st'.
Proof.
  intros Hc Hh Hk key r obj' Hkey Hobj'. rewrite Hc in Hkey.
  destruct (Hh _ _ Hobj') as (obj & Hobj & <- & <-). by eapply Hk.
Qed.

Lemma lookupOrCreate_cacheKeysMatch g n st :
  cacheValid st → cacheKeysMatch st → cacheKeysMatch (stateOf (lookupOrCreate g n st)).
Proof.
  intros Hv Hk. destruct (LOGGER_INSTANCE_CACHE st !! (g +:+ ":" +:+ n)) as [r|] eqn:H.
  - by rewrite (lookupOrCreate_hit _ _ _ _ H).
  - rewrite (lookupOrCreate_miss _ _ _ H). intros key r obj.
    cbn [stateOf withCACHE LOGGER_INSTANCE_CACHE heap].
    rewrite newDefaultLoggerInstance_heap, lookup_insert.
    change (LOGGER_INSTANCE_CACHE (newDefaultLoggerInstance n g _ (LOGGER st) st).2)
      with (LOGGER_INSTANCE_CACHE st).
    case_decide as Hkey.
    + intros [= <-]. rewrite list_lookup_middle by done. by intros [= <-].
    + intros Hr Hobj. pose proof (Hv _ _ Hr) as Hlt.
      rewrite lookup_app_l in Hobj by done. by eapply Hk.
Qed.

Section CacheKeys.

Variable levelValue : LogLevel → Z.

Lemma afterInitialize_cacheKeysMatch binding st :
  cacheValid st → cacheKeysMatch st → cacheKeysMatch (afterInitialize levelValue binding st).
Proof.
  intros Hv Hk. unfold afterInitialize. set (st1 := withLOGGER _ _).
  assert (cacheKeysMatch (stateOf (lookupOrCreate "" "" st1))) as Hk1.
  { apply lookupOrCreate_cacheKeysMatch; [|exact Hk].
    by eapply cacheValid_same; [| |exact Hv]. }
  destruct (lookupOrCreate "" "" st1) as [root st2|e st2]; cbn [stateOf] in Hk1; [|done].
  destruct (1 <? length _); [|exact Hk1].
  unfold callLog. destruct (heap _ !! root); cbn [mbind option_bind]; [|exact Hk1].
  by destruct (log _ _ _ _ _ _).
Qed.

Lemma getLogger_cacheKeysMatch g n st :
  cacheValid st → cacheKeysMatch st → cacheKeysMatch (stateOf (getLogger levelValue g n st)).
Proof.
  intros Hv Hk. destruct (INITIALIZED st) eqn:Hi.
  - rewrite getLogger_initialized by done. by apply lookupOrCreate_cacheKeysMatch.
  - destruct (BINDINGS st) as [|binding bindings] eqn:Hb.
    + by rewrite getLogger_no_binding.
    + rewrite (getLogger_first _ _ _ _ _ _ Hi Hb).
      apply lookupOrCreate_cacheKeysMatch.
      * by apply afterInitialize_cacheValid.
      * by apply afterInitialize_cacheKeysMatch.
Qed.

Lemma perform_cacheKeysMatch op st :
  wellFormed st → cacheKeysMatch st → cacheKeysMatch (perform levelValue st op).
Proof.
  intros [_ Hv] Hk.
  destruct op as [env|g n|b|lvl sel|this metadata|lvl this message metadata err];
    cbn [perform].
  - done.
  - by apply getLogger_cacheKeysMatch.
  - intros key r obj H. destruct b; cbn in H; by rewrite lookup_empty in H.
  - eapply cacheKeysMatch_transfer; [| |exact Hk].
    + by destruct (setLogLevel_fields lvl sel st) as (_ & _ & _ & _ & -> & _).
    + intros r obj' H. destruct (setLogLevel_heap_inv _ _ _ _ _ H) as (obj & Hobj & [->| ->]);
        by exists obj.
  - eapply cacheKeysMatch_transfer; [| |exact Hk].
    + by destruct (callSetMetadata_fields this metadata st) as (_ & _ & _ & -> & _).
    + intros r obj'. destruct (decide (this = r)) as [->|Hne].
      * destruct (heap st !! r) as [obj|] eqn:Hobj.
        -- rewrite (callSetMetadata_lookup _ _ _ _ Hobj). intros [= <-]. by exists obj.
        -- rewrite (callSetMetadata_none _ _ _ Hobj). intros H.
           assert (@None DefaultLoggerInstance = Some obj') as Habs
             by (rewrite <- Hobj; exact H).
           discriminate Habs.
      * rewrite (callSetMetadata_other _ _ _ _ Hne). intros H. by exists obj'.
  - unfold callLeveled. destruct (heap st !! this); cbn [mbind option_bind]; [|done].
    by destruct (leveled _ _ _ _ _ _).
Qed.

Lemma reachable_cacheKeysMatch environment ops :
  cacheKeysMatch (performAll levelValue ops (loadModule environment)).
Proof.
  unfold performAll.
  assert (cacheKeysMatch (loadModule environment)) as Hk.
  { intros key r obj H. cbn in H. by rewrite lookup_empty in H. }
  revert Hk. generalize (loadModule_wellFormed environment).
  generalize (loadModule environment) as st.
  induction ops as [|op ops IH]; intros st Hwf Hk; [done|].
  cbn [foldl]. apply IH; [by apply perform_wellFormed|by apply perform_cacheKeysMatch].
Qed.

(** X13. Whatever pair was first requested under a compound key, the
    instance [getLogger] returns carries a group and a name that concatenate
    to the requested key [group + ":" + name], in every state a program
    reaches from a freshly loaded module. *)
Theorem X13_returned_instance_matches_the_compound_key
    (environment : list LoggerBinding) (ops : list Operation) (g n : string) :
  INITIALIZED (performAll levelValue ops (loadModule environment)) = true
  ∨ BINDINGS (performAll levelValue ops (loadModule environment)) ≠ [] →
  ∃ instance st' obj,
    getLogger levelValue g n (performAll levelValue ops (loadModule environment))
    = Returned instance st'
    ∧ heap st' !! instance = Some obj
    ∧ Instance.getGroup obj +:+ ":" +:+ Instance.getName obj = g +:+ ":" +:+ n.
Proof.
  set (st := performAll levelValue ops (loadModule environment)). intros Hok.
  assert (wellFormed st) as Hwf by apply reachable_wellFormed.
  assert (cacheKeysMatch st) as Hk by apply reachable_cacheKeysMatch.
  destruct (getLogger_returns levelValue g n st Hok) as (instance & st' & Hget).
  pose proof (getLogger_outcome levelValue g n st) as Hout.
  pose proof (getLogger_wellFormed levelValue g n st Hwf) as [_ Hv].
  pose proof (getLogger_cacheKeysMatch g n st (proj2 Hwf) Hk) as Hk'.
  rewrite Hget in Hout, Hv, Hk'. cbn [stateOf] in Hv, Hk'.
  destruct Hout as (Hcached & _).
  destruct (lookup_lt_is_Some_2 _ _ (Hv _ _ Hcached)) as [obj Hobj].
  exists instance, st', obj. split; [done|]. split; [done|]. by eapply Hk'.
Qed.

(** X14. [reset] does not carry common metadata over: for a cached instance
    on which metadata was set, the instance that [getLogger] returns for the
    same group and name after [reset()] is another one and has no common
    metadata, while the former instance is still in the store with its
    metadata. *)
Theorem X14_reset_drops_common_metadata
    (g n : string) (metadata : Any) (old : ref) (obj : DefaultLoggerInstance) (st : State) :
  INITIALIZED st = true →
  LOGGER_INSTANCE_CACHE st !! (g +:+ ":" +:+ n) = Some old →
  heap st !! old = Some obj →
  ∃ fresh st' obj',
    getLogger levelValue g n (reset false (callSetMetadata old metadata st))
    = Returned fresh st'
    ∧ fresh ≠ old
    ∧ heap st' !! fresh = Some obj'
    ∧ commonMetadata obj' = Undefined
    ∧ heap st' !! old = Some (setMetadata obj metadata).
Proof.
  intros Hi Hcached Hobj.
  set (st1 := reset false (callSetMetadata old metadata st)).
  assert (LOGGER_INSTANCE_CACHE st1 !! (g +:+ ":" +:+ n) = None) as Hmiss
    by apply lookup_empty.
  assert (INITIALIZED st1 = true) as Hi1.
  { cbn. by destruct (callSetMetadata_fields old metadata st) as (_ & _ & -> & _). }
  destruct (getLogger_constructs levelValue g n st1 (proj1 (reset_wellFormed false _))
              Hmiss (or_introl Hi1))
    as (fresh & st' & obj' & Hget & Hlen & Hobj' & _ & _ & _ & Hcm & _).
  assert (heap st1 !! old = Some (setMetadata obj metadata)) as Hold
    by (by apply callSetMetadata_lookup).
  exists fresh, st', obj'. split; [done|]. split; [|split; [done|split; [done|]]].
  - apply lookup_lt_Some in Hold. lia.
  - pose proof (getLogger_heap levelValue g n st1) as [tail Htail].
    rewrite Hget in Htail. cbn [stateOf] in Htail. rewrite Htail.
    by apply lookup_app_l_Some.
Qed.

End CacheKeys.

(** ** One implementation serves the whole process *)

Lemma boundTo_same i st st' :
  INITIALIZED st' = INITIALIZED st → LOGGER st' = LOGGER st →
  heap st' = heap st → emitted st' = emitted st →
  boundTo i st → boundTo i st'.
Proof. unfold boundTo. by intros -> -> -> ->. Qed.

Lemma lookupOrCreate_boundTo i g n st :
  LOGGER st = Some i → boundTo i st → boundTo i (stateOf (lookupOrCreate g n st)).
Proof.
  intros Hl (Hi & Hh & He).
  destruct (LOGGER_INSTANCE_CACHE st !! (g +:+ ":" +:+ n)) as [r|] eqn:H.
  - by rewrite (lookupOrCreate_hit _ _ _ _ H).
  - rewrite (lookupOrCreate_miss _ _ _ H). split; [exact Hi|]. split; [|exact He].
    intros this obj. cbn [stateOf withCACHE heap]. rewrite newDefaultLoggerInstance_heap.
    intros Hobj. apply lookup_app_Some in Hobj as [Hold|[_ Hnew]]; [by eapply Hh|].
    apply list_lookup_singleton_Some in Hnew as [_ <-]. exact Hl.
Qed.

Section OneImplementation.

Variable levelValue : LogLevel → Z.

Lemma log_delegated_impl this lvl message metadata err j r :
  log levelValue this lvl message metadata err = Delegated j r → impl this = Some j.
Proof.
  unfold log. destruct (_ <=? _)%Z; [|discriminate].
  destruct (instanceofError metadata), (impl this); try discriminate; by intros [= -> _].
Qed.

Lemma deliver_log_boundTo i obj lvl message metadata err st :
  impl obj = Some i → boundTo i st →
  boundTo i (deliver (log levelValue obj lvl message metadata err) st).
Proof.
  intros Himpl (Hi & Hh & He).
  destruct (log levelValue obj lvl message metadata err) as [|j r|] eqn:Hlog; [done| |done].
  apply log_delegated_impl in Hlog. assert (j = i) as -> by congruence.
  split; [exact Hi|]. split; [exact Hh|]. intros j r'. cbn [deliver withEmitted emitted].
  rewrite elem_of_app, list_elem_of_singleton. intros [Hin|[= -> _]]; [by eapply He|done].
Qed.

Lemma afterInitialize_boundTo binding st :
  boundTo (getLoggerImplementation binding) st →
  boundTo (getLoggerImplementation binding) (afterInitialize levelValue binding st).
Proof.
  intros (_ & Hh & He). unfold afterInitialize. set (st1 := withLOGGER _ _).
  assert (boundTo (getLoggerImplementation binding) st1) as Hb1 by (by split).
  apply (lookupOrCreate_boundTo _ "" "") in Hb1; [|done].
  destruct (lookupOrCreate "" "" st1) as [root st2|e st2]; cbn [stateOf] in Hb1; [|done].
  destruct (1 <? length _); [|exact Hb1].
  unfold callLog. destruct (heap _ !! root) as [obj|] eqn:Hobj;
    cbn [mbind option_bind]; [|exact Hb1].
  apply deliver_log_boundTo; [|exact Hb1]. destruct Hb1 as (_ & Hh2 & _). by eapply Hh2.
Qed.

Lemma getLogger_boundTo g n st binding bindings :
  BINDINGS st = binding :: bindings →
  boundTo (getLoggerImplementation binding) st →
  boundTo (getLoggerImplementation binding) (stateOf (getLogger levelValue g n st)).
Proof.
  intros Hb Hbound. destruct (INITIALIZED st) eqn:Hi.
  - rewrite getLogger_initialized by done. apply lookupOrCreate_boundTo; [|done].
    destruct Hbound as (Hl & _). by apply Hl.
  - rewrite (getLogger_first _ _ _ _ _ _ Hi Hb).
    pose proof (afterInitialize_boundTo binding st Hbound) as Hb1.
    apply lookupOrCreate_boundTo; [|done].
    destruct Hb1 as (Hl & _). apply Hl. apply afterInitialize_extends.
Qed.

Lemma perform_boundTo op st binding bindings :
  BINDINGS st = binding :: bindings →
  boundTo (getLoggerImplementation binding) st →
  boundTo (getLoggerImplementation binding) (perform levelValue st op).
Proof.
  intros Hb Hbound.
  destruct op as [env|g n|b|lvl sel|this metadata|lvl this message metadata err];
    cbn [perform].
  - done.
  - by eapply getLogger_boundTo.
  - destruct Hbound as (Hl & Hh & He). destruct b; (split; [|done]); [|exact Hl].
    intros H. discriminate H.
  - destruct Hbound as (Hl & Hh & He).
    destruct (setLogLevel_fields lvl sel st) as (_ & Hlog & _ & Hi & _ & _ & Hem & _).
    split; [by rewrite Hi, Hlog|]. split; [|by rewrite Hem].
    intros r obj' H. destruct (setLogLevel_heap_inv _ _ _ _ _ H) as (obj & Hobj & [->| ->]);
      exact (Hh _ _ Hobj).
  - destruct Hbound as (Hl & Hh & He).
    destruct (callSetMetadata_fields this metadata st) as (_ & Hlog & Hi & _ & _ & Hem).
    split; [by rewrite Hi, Hlog|]. split; [|by rewrite Hem].
    intros r obj'. destruct (decide (this = r)) as [->|Hne].
    + destruct (heap st !! r) as [obj|] eqn:Hobj.
      * rewrite (callSetMetadata_lookup _ _ _ _ Hobj). intros [= <-]. exact (Hh _ _ Hobj).
      * rewrite (callSetMetadata_none _ _ _ Hobj). apply Hh.
    + rewrite (callSetMetadata_other _ _ _ _ Hne). apply Hh.
  - unfold callLeveled. destruct (heap st !! this) as [obj|] eqn:Hobj;
      cbn [mbind option_bind]; [|done].
    rewrite leveled_log. apply deliver_log_boundTo; [|done].
    destruct Hbound as (_ & Hh & _). by eapply Hh.
Qed.


Lemma reachable_boundTo binding bindings ops :
  boundTo (getLoggerImplementation binding)
    (performAll levelValue ops (loadModule (binding :: bindings))).
Proof.
  assert (boundTo (getLoggerImplementation binding) (loadModule (binding :: bindings)))
    as Hstart.
  { split; [intros H; discriminate H|]. split.
    - intros this obj H. cbn in H. by rewrite lookup_nil in H.
    - intros j r H. cbn in H. by apply elem_of_nil in H. }
  assert (BINDINGS (loadModule (binding :: bindings)) = binding :: bindings) as Hb
    by reflexivity.
  revert Hstart Hb. generalize (loadModule (binding :: bindings)) as st.
  unfold performAll. induction ops as [|op ops IH]; intros st Hbound Hb; [done|].
  cbn [foldl]. apply IH; [by eapply perform_boundTo|].
  by rewrite perform_BINDINGS.
Qed.

Lemma log_bound_is_not_rejected this i lvl message metadata err :
  impl this = Some i →
  log levelValue this lvl message metadata err ≠ RejectedTypeError.
Proof.
  intros Hi. unfold log. rewrite Hi.
  destruct (_ <=? _)%Z; [|discriminate]. by destruct (instanceofError metadata).
Qed.

End OneImplementation.

(** C7. Where a binding was discovered the claim holds: in every state a
    program reaches, [getLogger] returns an instance and no logging call on
    a constructed instance is rejected. Where none was discovered the code
    breaks it: the first [getLogger("svc", "db")] raises "No Logger Binding
    found" and leaves [INITIALIZED] set, the second call therefore returns an
    instance, constructed without implementation, and an [error] call on
    that instance finds no backend and is rejected; after [reset(true)] the
    error is raised a second time. *)
Theorem C7_logging_call_without_backend_occurs :
  (∀ levelValue binding bindings ops g n,
     ∃ instance st',
       getLogger levelValue g n (performAll levelValue ops (loadModule (binding :: bindings)))
       = Returned instance st')
  ∧ (∀ levelValue binding bindings ops lvl this obj message metadata err,
       heap (performAll levelValue ops (loadModule (binding :: bindings))) !! this
       = Some obj →
       ∃ c st',
         callLeveled levelValue lvl this message metadata err
           (performAll levelValue ops (loadModule (binding :: bindings)))
         = Some (c, st')
         ∧ c ≠ RejectedTypeError)
  ∧ getLogger errorFirst "svc" "db" (loadModule [])
    = Thrown "No Logger Binding found" (withINITIALIZED true (loadModule []))
  ∧ getLogger errorFirst "svc" "db" (withINITIALIZED true (loadModule []))
    = Returned 0 unboundProcess
  ∧ impl <$> heap unboundProcess !! 0 = Some None
  ∧ callLeveled errorFirst ERROR 0 "boom" Undefined None unboundProcess
    = Some (RejectedTypeError, unboundProcess)
  ∧ getLogger errorFirst "svc" "db" (reset true unboundProcess)
    = Thrown "No Logger Binding found" (withINITIALIZED true (reset true unboundProcess)).
Proof.
  split; [|split].
  - intros levelValue binding bindings ops g n. apply getLogger_returns. right.
    by rewrite performAll_BINDINGS.
  - intros levelValue binding bindings ops lvl this obj message metadata err Hobj.
    destruct (reachable_boundTo levelValue binding bindings ops) as (_ & Hh & _).
    unfold callLeveled. rewrite Hobj, leveled_log. cbn [mbind option_bind].
    eexists _, _. split; [reflexivity|].
    by eapply log_bound_is_not_rejected, Hh.
  - repeat split; vm_compute; reflexivity.
Qed.

(** ** The further properties at concrete inputs *)

Lemma X1_witness :
  descending errorFirst
  ∧ heap usedProcess !! 1 = Some svcDbInstance
  ∧ impl svcDbInstance = Some 7
  ∧ (severity (logLevel svcDbInstance) ≤ severity WARN)%nat
  ∧ instanceofError (AnObject {[ "a" := JsNum 1 ]}) = None
  ∧ ∃ st',
      callLeveled errorFirst WARN 1 "x" (AnObject {[ "a" := JsNum 1 ]}) None
        (callSetMetadata 1 (AnObject {[ "c" := JsNum 3 ]})
           (callSetMetadata 1 (AnObject {[ "b" := JsNum 2 ]}) usedProcess))
      = Some (Delegated 7 {| recLevel := WARN; recGroup := group svcDbInstance;
                             recName := name svcDbInstance; recMessage := "x";
                             recError := None;
                             recMetadata := spread (AnObject {[ "a" := JsNum 1 ]})
                                            ∪ spread (AnObject {[ "c" := JsNum 3 ]}) |}, st')
      ∧ emitted st'
        = emitted usedProcess
          ++ [(7, {| recLevel := WARN; recGroup := group svcDbInstance;
                     recName := name svcDbInstance; recMessage := "x";
                     recError := None;
                     recMetadata := spread (AnObject {[ "a" := JsNum 1 ]})
                                    ∪ spread (AnObject {[ "c" := JsNum 3 ]}) |})].
Proof.
  split; [exact errorFirst_descending|]. split; [vm_compute; reflexivity|].
  split; [reflexivity|]. split; [cbn; lia|]. split; [reflexivity|].
  apply (X1_setMetadata_replaces errorFirst errorFirst_descending WARN 1 svcDbInstance 7 "x"
           (AnObject {[ "b" := JsNum 2 ]}) (AnObject {[ "c" := JsNum 3 ]})
           (AnObject {[ "a" := JsNum 1 ]}) None usedProcess);
    [vm_compute; reflexivity|reflexivity|cbn; lia|reflexivity].
Defined.

Lemma X2_witness :
  wellFormed freshProcess
  ∧ (INITIALIZED freshProcess = true ∨ BINDINGS freshProcess ≠ [])
  ∧ ∃ instance st1 obj,
      getLogger errorFirst "svc" "db" freshProcess = Returned instance st1
      ∧ heap st1 !! instance = Some obj
      ∧ getLogger errorFirst "svc" "db"
          (callSetMetadata instance (AnObject {[ "b" := JsNum 2 ]}) st1)
        = Returned instance (callSetMetadata instance (AnObject {[ "b" := JsNum 2 ]}) st1)
      ∧ heap (callSetMetadata instance (AnObject {[ "b" := JsNum 2 ]}) st1) !! instance
        = Some (setMetadata obj (AnObject {[ "b" := JsNum 2 ]}))
      ∧ ∀ other, other ≠ instance →
          heap (callSetMetadata instance (AnObject {[ "b" := JsNum 2 ]}) st1) !! other
          = heap st1 !! other.
Proof.
  split; [apply loadModule_wellFormed|]. split; [by right|].
  apply (X2_metadata_is_shared_by_all_holders errorFirst "svc" "db"
           (AnObject {[ "b" := JsNum 2 ]}) freshProcess);
    [apply loadModule_wellFormed|by right].
Defined.

Lemma X3_witness :
  (INITIALIZED (performAll errorFirst [] (loadModule [consoleBinding])) = true
   ∨ BINDINGS (performAll errorFirst [] (loadModule [consoleBinding])) ≠ [])
  ∧ "svc" +:+ ":" +:+ "db" ≠ "svc" +:+ ":" +:+ "web"
  ∧ ∃ r1 st1 r2 st2,
      getLogger errorFirst "svc" "db" (performAll errorFirst [] (loadModule [consoleBinding]))
      = Returned r1 st1
      ∧ getLogger errorFirst "svc" "web" st1 = Returned r2 st2
      ∧ r1 ≠ r2.
Proof.
  split; [by right|]. split; [intros H; discriminate H|].
  apply (X3_distinct_keys_get_distinct_instances errorFirst [consoleBinding] []
           "svc" "db" "svc" "web"); [by right|intros H; discriminate H].
Defined.

Lemma X5_witness :
  coldCacheEmpty (setLogLevel TRACE Global freshProcess)
  ∧ INITIALIZED (setLogLevel TRACE Global freshProcess) = false
  ∧ BINDINGS (setLogLevel TRACE Global freshProcess) = [consoleBinding]
  ∧ ∃ instance st',
      getLogger errorFirst "svc" "db" (setLogLevel TRACE Global freshProcess)
      = Returned instance st'
      ∧ LOGGER st' = Some (getLoggerImplementation consoleBinding)
      ∧ emitted st' = emitted (setLogLevel TRACE Global freshProcess).
Proof.
  split; [by intros _|]. split; [reflexivity|]. split; [reflexivity|].
  apply (X5_single_binding_emits_no_diagnostic errorFirst "svc" "db"
           (setLogLevel TRACE Global freshProcess) consoleBinding);
    [by intros _|reflexivity|reflexivity].
Defined.

Lemma X6_witness :
  coldCacheEmpty freshProcess
  ∧ INITIALIZED freshProcess = false
  ∧ BINDINGS freshProcess = [consoleBinding]
  ∧ ∃ instance st',
      getLogger errorFirst "svc" "db" freshProcess = Returned instance st'
      ∧ ROOT_LOGGER st' = Some 0
      ∧ getLogger errorFirst "" "" st' = Returned 0 st'
      ∧ instance = 1 ∧ length (heap st') = 2.
Proof.
  split; [by intros _|]. split; [reflexivity|]. split; [reflexivity|].
  destruct (X6_first_call_constructs_the_root_logger errorFirst "svc" "db" freshProcess
              consoleBinding [] (λ _, eq_refl) eq_refl eq_refl)
    as (instance & st' & Hget & Hroot & Hagain & _ & Hother).
  exists instance, st'. split; [exact Hget|]. split; [exact Hroot|].
  split; [exact Hagain|]. apply Hother. intros [H _]. discriminate H.
Defined.

Lemma X7_witness :
  descending errorFirst
  ∧ wellFormed failedProcess
  ∧ noBackend failedProcess
  ∧ INITIALIZED failedProcess = true
  ∧ ∃ instance st' obj,
      getLogger errorFirst "svc" "db" failedProcess = Returned instance st'
      ∧ heap st' !! instance = Some obj
      ∧ Instance.getImpl obj = None
      ∧ callLeveled errorFirst ERROR instance "boom" Undefined None st'
        = Some (if decide (severity ERROR < severity (logLevel obj))%nat
                then NoOp else RejectedTypeError, st').
Proof.
  assert (wellFormed failedProcess) as Hwf.
  { split; [intros H; discriminate H|]. intros key r H. cbn in H.
    by rewrite lookup_empty in H. }
  assert (noBackend failedProcess) as Hn.
  { split; [reflexivity|]. split; [reflexivity|]. intros this obj H. cbn in H.
    by rewrite lookup_nil in H. }
  split; [exact errorFirst_descending|]. split; [exact Hwf|]. split; [exact Hn|].
  split; [reflexivity|].
  apply (X7_instances_after_failed_initialisation_reject errorFirst errorFirst_descending
           "svc" "db" ERROR "boom" Undefined None failedProcess Hwf Hn eq_refl).
Defined.

Lemma X9_witness :
  descending errorFirst
  ∧ coldCacheEmpty freshProcess
  ∧ INITIALIZED freshProcess = false
  ∧ BINDINGS freshProcess = [consoleBinding]
  ∧ (severity (getLogLevel (configuration freshProcess) "svc" "db") ≤ severity WARN)%nat
  ∧ instanceofError (AnObject {[ "a" := JsNum 1 ]}) = None
  ∧ ∃ instance st1 st2,
      getLogger errorFirst "svc" "db" freshProcess = Returned instance st1
      ∧ callLeveled errorFirst WARN instance "x" (AnObject {[ "a" := JsNum 1 ]}) None st1
        = Some (Delegated (getLoggerImplementation consoleBinding)
                  {| recLevel := WARN; recGroup := "svc"; recName := "db";
                     recMessage := "x"; recError := None;
                     recMetadata := spread (AnObject {[ "a" := JsNum 1 ]}) |}, st2)
      ∧ emitted st2
        = emitted st1 ++ [(getLoggerImplementation consoleBinding,
                           {| recLevel := WARN; recGroup := "svc"; recName := "db";
                              recMessage := "x"; recError := None;
                              recMetadata := spread (AnObject {[ "a" := JsNum 1 ]}) |})].
Proof.
  split; [exact errorFirst_descending|]. split; [by intros _|].
  split; [reflexivity|]. split; [reflexivity|]. split; [vm_compute; lia|].
  split; [reflexivity|].
  apply (X9_new_instance_delivers_to_first_binding errorFirst errorFirst_descending
           "svc" "db" WARN "x" (AnObject {[ "a" := JsNum 1 ]}) None freshProcess
           consoleBinding []);
    [by intros _|reflexivity|reflexivity|vm_compute; lia|reflexivity].
Defined.

Lemma X11_witness :
  heap usedProcess !! 1 = Some svcDbInstance
  ∧ ∃ obj',
      heap (perform errorFirst usedProcess (Reset true)) !! 1 = Some obj'
      ∧ Instance.getGroup obj' = Instance.getGroup svcDbInstance
      ∧ Instance.getName obj' = Instance.getName svcDbInstance
      ∧ Instance.getImpl obj' = Instance.getImpl svcDbInstance
      ∧ ((∀ lvl sel, Reset true ≠ SetLogLevel lvl sel) →
           Instance.getLogLevel obj' = Instance.getLogLevel svcDbInstance)
      ∧ ((∀ metadata, Reset true ≠ SetMetadata 1 metadata) →
           commonMetadata obj' = commonMetadata svcDbInstance).
Proof.
  split; [vm_compute; reflexivity|].
  apply (X11_instances_persist_with_their_identity errorFirst (Reset true) usedProcess 1
           svcDbInstance).
  vm_compute. reflexivity.
Defined.

Lemma X13_witness :
  (INITIALIZED (performAll errorFirst [GetLogger "a:b" "c"] (loadModule [consoleBinding]))
   = true
   ∨ BINDINGS (performAll errorFirst [GetLogger "a:b" "c"] (loadModule [consoleBinding]))
     ≠ [])
  ∧ ∃ instance st' obj,
      getLogger errorFirst "a" "b:c"
        (performAll errorFirst [GetLogger "a:b" "c"] (loadModule [consoleBinding]))
      = Returned instance st'
      ∧ heap st' !! instance = Some obj
      ∧ Instance.getGroup obj +:+ ":" +:+ Instance.getName obj = "a" +:+ ":" +:+ "b:c".
Proof.
  split; [left; vm_compute; reflexivity|].
  apply (X13_returned_instance_matches_the_compound_key errorFirst [consoleBinding]
           [GetLogger "a:b" "c"] "a" "b:c").
  left. vm_compute. reflexivity.
Defined.

Lemma X14_witness :
  INITIALIZED usedProcess = true
  ∧ LOGGER_INSTANCE_CACHE usedProcess !! ("svc" +:+ ":" +:+ "db") = Some 1
  ∧ heap usedProcess !! 1 = Some svcDbInstance
  ∧ ∃ fresh st' obj',
      getLogger errorFirst "svc" "db"
        (reset false (callSetMetadata 1 (AnObject {[ "b" := JsNum 2 ]}) usedProcess))
      = Returned fresh st'
      ∧ fresh ≠ 1
      ∧ heap st' !! fresh = Some obj'
      ∧ commonMetadata obj' = Undefined
      ∧ heap st' !! 1 = Some (setMetadata svcDbInstance (AnObject {[ "b" := JsNum 2 ]})).
Proof.
  split; [vm_compute; reflexivity|]. split; [vm_compute; reflexivity|].
  split; [vm_compute; reflexivity|].
  apply (X14_reset_drops_common_metadata errorFirst "svc" "db"
           (AnObject {[ "b" := JsNum 2 ]}) 1 svcDbInstance usedProcess);
    vm_compute; reflexivity.
Defined.
